(** * Infinity Swap: the generated message and response types

    The repository holds two files of TypeScript type declarations generated by
    ts-codegen from the JSON schemas of two contracts: the pool contract
    ([InfinityPool.types.ts]) and the swap router.  There is no executable
    code: what can be verified is what the declarations say about the JSON
    values that cross the contract boundary.

    The declarations are embedded one for one as terms of a small language of
    TypeScript types ([ty]); JSON values are an inductive type ([json]); and
    [has_type] is TypeScript's structural typing restricted to JSON values. *)

From Stdlib Require Import String List Bool ZArith NArith Lia.
From Stdlib Require Import DecimalString DecimalN.
Import ListNotations.
Open Scope string_scope.

(** ** TypeScript types *)

Local Unset Elimination Schemes.

(** A property of an object type: [name: t] or [name?: t]. *)
Record member (T : Type) : Type := Member {
  name : string;
  optional : bool;
  type_of : T
}.
Arguments Member {T} _ _ _.
Arguments name {T} _.
Arguments optional {T} _.
Arguments type_of {T} _.

(** The type expressions the two files use.  [TNamed n t] is a declaration
    [export type n = t] or [export interface n t]: the name is kept so that a
    use of [Uint128] can be told from a use of [string]. *)
Inductive ty : Type :=
| TString
| TNumber
| TBoolean
| TNull
| TLit (s : string)
| TArray (elt : ty)
| TTuple (elts : list ty)
| TUnion (alts : list ty)
| TObject (members : list (member ty))
| TNamed (n : string) (body : ty).

(** [name: t] *)
Definition req (n : string) (t : ty) : member ty := Member n false t.
(** [name?: t] *)
Definition opt (n : string) (t : ty) : member ty := Member n true t.
(** [t | null] *)
Definition nullable (t : ty) : ty := TUnion [t; TNull].
(** [export interface n { ms }] *)
Definition interface (n : string) (ms : list (member ty)) : ty :=
  TNamed n (TObject ms).

(** The type behind its declared names. *)
Fixpoint resolve (t : ty) : ty :=
  match t with
  | TNamed _ b => resolve b
  | _ => t
  end.

(** ** JSON values

    [number] is the carrier of JSON numbers (an IEEE double in JavaScript);
    nothing below depends on what it is. *)
Inductive json (number : Type) : Type :=
| JNull
| JBool (b : bool)
| JNum (n : number)
| JStr (s : string)
| JArr (l : list (json number))
| JObj (kvs : list (string * json number)).
Arguments JNull {number}.
Arguments JBool {number} _.
Arguments JNum {number} _.
Arguments JStr {number} _.
Arguments JArr {number} _.
Arguments JObj {number} _.

Local Set Elimination Schemes.

Section Typing.
Context {number : Type}.

(** The property [k] of an object, if it has one. *)
Fixpoint lookup (k : string) (kvs : list (string * json number))
  : option (json number) :=
  match kvs with
  | [] => None
  | (k', v) :: rest => if String.eqb k k' then Some v else lookup k rest
  end.

(** The property names of an object value; [[]] for any other value. *)
Definition keys (j : json number) : list string :=
  match j with
  | JObj kvs => map fst kvs
  | _ => []
  end.

(** The property [k] of a value, if the value is an object that has it. *)
Definition field (k : string) (j : json number) : option (json number) :=
  match j with
  | JObj kvs => lookup k kvs
  | _ => None
  end.

(** The elements of a tuple value against the element types, one for one:
    a tuple type fixes the length. *)
Fixpoint tuple_typed (H : ty -> json number -> bool) (es : list ty)
  (l : list (json number)) {struct es} : bool :=
  match es, l with
  | [], [] => true
  | e :: es', x :: l' => H e x && tuple_typed H es' l'
  | _, _ => false
  end.

(** One property against an object value: a required property is there
    with its type, an optional one is absent or has its type. *)
Definition member_typed (H : ty -> json number -> bool) (m : member ty)
  (kvs : list (string * json number)) : bool :=
  match lookup (name m) kvs with
  | Some x => H (type_of m) x
  | None => optional m
  end.

(** Structural typing on JSON values.  An object type asks for each required
    property, and for each property that is there to have its type; as in
    TypeScript, where [{a: 1, b: 2}] is assignable to [{a: number}], it does
    not forbid further properties.  A union is inhabited by the values of any
    of its alternatives.  Where an object repeats a property name, [lookup]
    reads the first. *)
Fixpoint has_type (t : ty) (j : json number) {struct t} : bool :=
  match t with
  | TString => match j with JStr _ => true | _ => false end
  | TNumber => match j with JNum _ => true | _ => false end
  | TBoolean => match j with JBool _ => true | _ => false end
  | TNull => match j with JNull => true | _ => false end
  | TLit s => match j with JStr s' => String.eqb s s' | _ => false end
  | TArray e => match j with JArr l => forallb (has_type e) l | _ => false end
  | TTuple es =>
    match j with
    | JArr l => tuple_typed has_type es l
    | _ => false
    end
  | TUnion alts => existsb (fun a => has_type a j) alts
  | TObject ms =>
      match j with
      | JObj kvs => forallb (fun m => member_typed has_type m kvs) ms
      | _ => false
      end
  | TNamed _ b => has_type b j
  end.
End Typing.

(** ** The declarations *)

(** [InfinityPool.types.ts]: the pool contract.  A declaration comes after
    the ones it uses; [declarations] lists them in the file's order. *)
Module InfinityPool.
Definition Addr : ty := TNamed "Addr" TString.
Definition Config : ty := interface "Config"
  [ req "denom" TString;
    opt "developer" (nullable Addr);
    req "marketplace_addr" Addr ].
Definition ConfigResponse : ty := interface "ConfigResponse"
  [ req "config" Config ].
Definition InstantiateMsg : ty := interface "InstantiateMsg"
  [ req "denom" TString;
    opt "developer" (nullable TString);
    req "marketplace_addr" TString ].
Definition Uint128 : ty := TNamed "Uint128" TString.
Definition NftSwap : ty := interface "NftSwap"
  [ req "nft_token_id" TString;
    req "token_amount" Uint128 ].
Definition BondingCurve : ty := TNamed "BondingCurve"
  (TUnion [TLit "linear"; TLit "exponential"; TLit "constant_product"]).
Definition Decimal : ty := TNamed "Decimal" TString.
Definition PoolType : ty := TNamed "PoolType"
  (TUnion [TLit "token"; TLit "nft"; TLit "trade"]).
Definition PoolInfo : ty := interface "PoolInfo"
  [ opt "asset_recipient" (nullable Addr);
    req "bonding_curve" BondingCurve;
    req "collection" Addr;
    req "delta" Uint128;
    req "finders_fee_percent" Decimal;
    req "pool_type" PoolType;
    req "reinvest_nfts" TBoolean;
    req "reinvest_tokens" TBoolean;
    req "spot_price" Uint128;
    req "swap_fee_percent" Decimal ].
Definition PoolNftSwap : ty := interface "PoolNftSwap"
  [ req "nft_swaps" (TArray NftSwap);
    req "pool_id" TNumber ].
Definition PoolQuote : ty := interface "PoolQuote"
  [ req "collection" Addr;
    req "id" TNumber;
    req "quote_price" Uint128 ].
Definition PoolQuoteResponse : ty := interface "PoolQuoteResponse"
  [ req "pool_quotes" (TArray PoolQuote) ].
Definition Pool : ty := interface "Pool"
  [ opt "asset_recipient" (nullable Addr);
    req "bonding_curve" BondingCurve;
    req "collection" Addr;
    req "delta" Uint128;
    req "finders_fee_percent" Decimal;
    req "id" TNumber;
    req "is_active" TBoolean;
    req "nft_token_ids" (TArray TString);
    req "owner" Addr;
    req "pool_type" PoolType;
    req "reinvest_nfts" TBoolean;
    req "reinvest_tokens" TBoolean;
    req "spot_price" Uint128;
    req "swap_fee_percent" Decimal;
    req "total_tokens" Uint128 ].
Definition PoolsByIdResponse : ty := interface "PoolsByIdResponse"
  [ req "pools" (TArray (TTuple [TNumber; nullable Pool])) ].
Definition PoolsResponse : ty := interface "PoolsResponse"
  [ req "pools" (TArray Pool) ].
Definition QueryOptionsForTupleOfUint128AndUint64 : ty :=
  interface "QueryOptionsForTupleOfUint128AndUint64"
  [ opt "descending" (nullable TBoolean);
    opt "limit" (nullable TNumber);
    opt "start_after" (nullable (TTuple [Uint128; TNumber])) ].
Definition QueryOptionsForUint64 : ty := interface "QueryOptionsForUint64"
  [ opt "descending" (nullable TBoolean);
    opt "limit" (nullable TNumber);
    opt "start_after" (nullable TNumber) ].
Definition Uint64 : ty := TNamed "Uint64" TString.
Definition Timestamp : ty := TNamed "Timestamp" Uint64.
Definition SwapParams : ty := interface "SwapParams"
  [ req "deadline" Timestamp;
    req "robust" TBoolean ].
Definition TransactionType : ty := TNamed "TransactionType"
  (TUnion [TLit "sell"; TLit "buy"]).
Definition TokenPayment : ty := interface "TokenPayment"
  [ req "address" TString;
    req "amount" Uint128 ].
Definition NftPayment : ty := interface "NftPayment"
  [ req "address" TString;
    req "nft_token_id" TString ].
Definition Swap : ty := interface "Swap"
  [ opt "finder_payment" (nullable TokenPayment);
    req "network_fee" Uint128;
    opt "nft_payment" (nullable NftPayment);
    req "pool_id" TNumber;
    opt "royalty_payment" (nullable TokenPayment);
    opt "seller_payment" (nullable TokenPayment);
    req "spot_price" Uint128;
    req "transaction_type" TransactionType ].
Definition SwapResponse : ty := interface "SwapResponse"
  [ req "swaps" (TArray Swap) ].

(** Every declaration of the file, in the file's order. *)
Definition declarations : list ty :=
  [ Addr; ConfigResponse; Config; InstantiateMsg; Uint128; NftSwap;
    BondingCurve; Decimal; PoolType; PoolInfo; PoolNftSwap;
    PoolQuoteResponse; PoolQuote; PoolsByIdResponse; Pool; PoolsResponse;
    QueryOptionsForTupleOfUint128AndUint64; QueryOptionsForUint64;
    Timestamp; Uint64; SwapParams; TransactionType; SwapResponse; Swap;
    TokenPayment; NftPayment ].
End InfinityPool.

(** The second type file (its name is not recorded): the swap router. *)
Module InfinityRouter.
Definition InstantiateMsg : ty := interface "InstantiateMsg"
  [ req "infinity_global" TString ].
Definition NftForTokensSource : ty :=
  TNamed "NftForTokensSource" (TLit "infinity").
Definition Uint128 : ty := TNamed "Uint128" TString.
Definition TokensForNftSource : ty :=
  TNamed "TokensForNftSource" (TLit "infinity").
Definition SellOrder : ty := interface "SellOrder"
  [ req "input_token_id" TString;
    req "min_output" Uint128 ].
Definition SwapParamsForString : ty := interface "SwapParamsForString"
  [ opt "asset_recipient" (nullable TString);
    opt "robust" (nullable TBoolean) ].
Definition ExecuteMsg : ty := TNamed "ExecuteMsg" (TUnion
  [ TObject
      [ req "swap_nfts_for_tokens" (TObject
          [ req "collection" TString;
            req "denom" TString;
            opt "filter_sources" (nullable (TArray NftForTokensSource));
            req "sell_orders" (TArray SellOrder);
            opt "swap_params" (nullable SwapParamsForString) ]) ];
    TObject
      [ req "swap_tokens_for_nfts" (TObject
          [ req "collection" TString;
            req "denom" TString;
            opt "filter_sources" (nullable (TArray TokensForNftSource));
            req "max_inputs" (TArray Uint128);
            opt "swap_params" (nullable SwapParamsForString) ]) ] ]).
Definition QueryMsg : ty := TNamed "QueryMsg" (TUnion
  [ TObject
      [ req "nfts_for_tokens" (TObject
          [ req "collection" TString;
            req "denom" TString;
            opt "filter_sources" (nullable (TArray NftForTokensSource));
            req "limit" TNumber ]) ];
    TObject
      [ req "tokens_for_nfts" (TObject
          [ req "collection" TString;
            req "denom" TString;
            opt "filter_sources" (nullable (TArray TokensForNftSource));
            req "limit" TNumber ]) ] ]).
Definition Addr : ty := TNamed "Addr" TString.
Definition NftForTokensQuote : ty := interface "NftForTokensQuote"
  [ req "address" Addr;
    req "amount" Uint128;
    req "source" NftForTokensSource ].
Definition ArrayOfNftForTokensQuote : ty :=
  TNamed "ArrayOfNftForTokensQuote" (TArray NftForTokensQuote).
Definition TokensForNftQuote : ty := interface "TokensForNftQuote"
  [ req "address" Addr;
    req "amount" Uint128;
    req "source" TokensForNftSource ].
Definition ArrayOfTokensForNftQuote : ty :=
  TNamed "ArrayOfTokensForNftQuote" (TArray TokensForNftQuote).

(** Every declaration of the file, in the file's order. *)
Definition declarations : list ty :=
  [ InstantiateMsg; ExecuteMsg; NftForTokensSource; Uint128;
    TokensForNftSource; SellOrder; SwapParamsForString; QueryMsg; Addr;
    ArrayOfNftForTokensQuote; NftForTokensQuote; ArrayOfTokensForNftQuote;
    TokensForNftQuote ].
End InfinityRouter.

(** Every declared shape of the two files. *)
Definition declared_shapes : list ty :=
  InfinityPool.declarations ++ InfinityRouter.declarations.

(** ** Typed values and the codec

    The repository has no encoder, validator or decoder: they belong to the
    code generator's runtime and to the contract.  The three definitions
    [denote], [encode] and [decode] below stand for them, following the
    spec's round trip (encode to JSON, validate against the schema, decode);
    their parts for tuples, unions and objects come first. *)
Section Codec.
Context {number : Type}.

Section Parts.
Variable D : ty -> Type.

(** Modelled from the spec: the values of a tuple type, one per element
    (part of [denote]). *)
Fixpoint denote_tuple (es : list ty) : Type :=
  match es with
  | [] => unit
  | e :: es' => D e * denote_tuple es'
  end.

(** Modelled from the spec: the values of a union, a value of one of the
    alternatives (part of [denote]). *)
Fixpoint denote_union (alts : list ty) : Type :=
  match alts with
  | [] => Empty_set
  | a :: alts' => D a + denote_union alts'
  end.

(** Modelled from the spec: the value of a property; an optional property
    may be absent (part of [denote]). *)
Definition denote_member (m : member ty) : Type :=
  if optional m then option (D (type_of m)) else D (type_of m).

(** Modelled from the spec: the values of an object type, one per property
    (part of [denote]). *)
Fixpoint denote_members (ms : list (member ty)) : Type :=
  match ms with
  | [] => unit
  | m :: ms' => denote_member m * denote_members ms'
  end.

Variable E : forall t, D t -> json number.

(** Modelled from the spec: the elements of an encoded tuple (part of
    [encode]). *)
Fixpoint encode_tuple (es : list ty) : denote_tuple es -> list (json number) :=
  match es return denote_tuple es -> list (json number) with
  | [] => fun _ => []
  | e :: es' => fun v => E e (fst v) :: encode_tuple es' (snd v)
  end.

(** Modelled from the spec: a value of a union is written as the value of
    its alternative, without a tag (part of [encode]). *)
Fixpoint encode_union (alts : list ty) : denote_union alts -> json number :=
  match alts return denote_union alts -> json number with
  | [] => fun v => match v with end
  | a :: alts' => fun v =>
      match v with
      | inl x => E a x
      | inr y => encode_union alts' y
      end
  end.

(** Modelled from the spec: an absent optional property is left out of the
    object (part of [encode]). *)
Definition encode_member (m : member ty)
  : denote_member m -> list (string * json number) :=
  match optional m as o
    return (if o then option (D (type_of m)) else D (type_of m)) -> _
  with
  | true => fun v =>
      match v with
      | Some x => [(name m, E (type_of m) x)]
      | None => []
      end
  | false => fun x => [(name m, E (type_of m) x)]
  end.

(** Modelled from the spec: the properties of an encoded object, in the
    order of the declaration (part of [encode]). *)
Fixpoint encode_members (ms : list (member ty))
  : denote_members ms -> list (string * json number) :=
  match ms return denote_members ms -> list (string * json number) with
  | [] => fun _ => []
  | m :: ms' => fun v =>
      (encode_member m (fst v) ++ encode_members ms' (snd v))%list
  end.

Variable Dec : forall t, json number -> option (D t).

(** Modelled from the spec: a tuple is read element by element, and its
    length must be that of the type (part of [decode]). *)
Fixpoint decode_tuple (es : list ty) (l : list (json number))
  : option (denote_tuple es) :=
  match es return option (denote_tuple es) with
  | [] => match l with [] => Some tt | _ :: _ => None end
  | e :: es' =>
      match l with
      | [] => None
      | x :: l' =>
          match Dec e x, decode_tuple es' l' with
          | Some v, Some vs => Some (v, vs)
          | _, _ => None
          end
      end
  end.

(** Modelled from the spec: the first alternative that fits is taken (part
    of [decode]). *)
Fixpoint decode_union (alts : list ty) (j : json number)
  : option (denote_union alts) :=
  match alts return option (denote_union alts) with
  | [] => None
  | a :: alts' =>
      match Dec a j with
      | Some v => Some (inl v)
      | None => option_map inr (decode_union alts' j)
      end
  end.

(** Modelled from the spec: a missing property is accepted only where it is
    optional (part of [decode]). *)
Definition decode_member (m : member ty) (kvs : list (string * json number))
  : option (denote_member m) :=
  match optional m as o
    return option (if o then option (D (type_of m)) else D (type_of m))
  with
  | true =>
      match lookup (name m) kvs with
      | None => Some None
      | Some x => option_map Some (Dec (type_of m) x)
      end
  | false =>
      match lookup (name m) kvs with
      | None => None
      | Some x => Dec (type_of m) x
      end
  end.

(** Modelled from the spec: an object is read property by property (part
    of [decode]). *)
Fixpoint decode_members (ms : list (member ty))
  (kvs : list (string * json number)) : option (denote_members ms) :=
  match ms return option (denote_members ms) with
  | [] => Some tt
  | m :: ms' =>
      match decode_member m kvs, decode_members ms' kvs with
      | Some v, Some vs => Some (v, vs)
      | _, _ => None
      end
  end.
End Parts.

(** Modelled from the spec: an array is read element by element (part of
    [decode]). *)
Fixpoint decode_list {A : Type} (f : json number -> option A)
  (l : list (json number)) : option (list A) :=
  match l with
  | [] => Some []
  | x :: l' =>
      match f x, decode_list f l' with
      | Some v, Some vs => Some (v :: vs)
      | _, _ => None
      end
  end.

(** Modelled from the spec: the values of a declared shape, which the
    repository only describes by its type.  A string, number or boolean
    type has the strings, numbers or booleans; an array type lists; a tuple
    type tuples; a union a value of one alternative; an object type one
    value per property, or none for an absent optional property. *)
Fixpoint denote (t : ty) : Type :=
  match t with
  | TString => string
  | TNumber => number
  | TBoolean => bool
  | TNull => unit
  | TLit _ => unit
  | TArray e => list (denote e)
  | TTuple es => denote_tuple denote es
  | TUnion alts => denote_union denote alts
  | TObject ms => denote_members denote ms
  | TNamed _ b => denote b
  end.

(** Modelled from the spec: the encoder, missing from the repository.  It
    writes a value as the JSON value the declaration describes. *)
Fixpoint encode (t : ty) : denote t -> json number :=
  match t return denote t -> json number with
  | TString => fun s => JStr s
  | TNumber => fun n => JNum n
  | TBoolean => fun b => JBool b
  | TNull => fun _ => JNull
  | TLit s => fun _ => JStr s
  | TArray e => fun l => JArr (map (encode e) l)
  | TTuple es => fun v => JArr (encode_tuple denote encode es v)
  | TUnion alts => fun v => encode_union denote encode alts v
  | TObject ms => fun v => JObj (encode_members denote encode ms v)
  | TNamed _ b => encode b
  end.

(** Modelled from the spec: the validating decoder, missing from the
    repository.  It reads a JSON value at a declared shape and rejects it
    ([None]) when a required property is missing, a literal is not the
    declared one, or a part is rejected. *)
Fixpoint decode (t : ty) (j : json number) {struct t} : option (denote t) :=
  match t return option (denote t) with
  | TString => match j with JStr s => Some s | _ => None end
  | TNumber => match j with JNum n => Some n | _ => None end
  | TBoolean => match j with JBool b => Some b | _ => None end
  | TNull => match j with JNull => Some tt | _ => None end
  | TLit s =>
      match j with
      | JStr s' => if String.eqb s s' then Some tt else None
      | _ => None
      end
  | TArray e =>
      match j with
      | JArr l => decode_list (decode e) l
      | _ => None
      end
  | TTuple es =>
      match j with
      | JArr l => decode_tuple denote decode es l
      | _ => None
      end
  | TUnion alts => decode_union denote decode alts j
  | TObject ms =>
      match j with
      | JObj kvs => decode_members denote decode ms kvs
      | _ => None
      end
  | TNamed _ b => decode b j
  end.
End Codec.
Arguments denote : clear implicits.

(** ** Declarations that decode without ambiguity *)

(** Whether [k] is one of [ks]. *)
Definition mem (k : string) (ks : list string) : bool :=
  existsb (String.eqb k) ks.

Fixpoint nodup_names (ks : list string) : bool :=
  match ks with
  | [] => true
  | k :: ks' => negb (mem k ks') && nodup_names ks'
  end.

(** The JSON constructor of the values of a type; a union has none of its
    own. *)
Inductive kind : Type := KNull | KBool | KNum | KStr | KArr | KObj | KAny.

Definition kind_of (t : ty) : kind :=
  match t with
  | TString | TLit _ => KStr
  | TNumber => KNum
  | TBoolean => KBool
  | TNull => KNull
  | TArray _ | TTuple _ => KArr
  | TObject _ => KObj
  | TUnion _ | TNamed _ _ => KAny
  end.

Definition kind_differs (a b : kind) : bool :=
  match a, b with
  | KAny, _ | _, KAny => false
  | KNull, KNull | KBool, KBool | KNum, KNum | KStr, KStr
  | KArr, KArr | KObj, KObj => false
  | _, _ => true
  end.

(** [apart a b]: no encoding of a value of [b] decodes at [a].  Two literals
    are apart when they differ, two object types when the first requires a
    property the second does not declare, and two other types when their
    values are built with different JSON constructors. *)
Definition apart (a b : ty) : bool :=
  match resolve a, resolve b with
  | TLit s, TLit s' => negb (String.eqb s s')
  | TObject ms, TObject ms' =>
      existsb (fun m => negb (optional m) && negb (mem (name m) (map name ms')))
        ms
  | ra, rb => kind_differs (kind_of ra) (kind_of rb)
  end.

Fixpoint pairwise_apart (alts : list ty) : bool :=
  match alts with
  | [] => true
  | a :: alts' => forallb (apart a) alts' && pairwise_apart alts'
  end.

(** A declaration is well formed when no object type declares a property
    twice and the alternatives of every union are apart. *)
Fixpoint well_formed (t : ty) : bool :=
  match t with
  | TArray e => well_formed e
  | TTuple es => forallb well_formed es
  | TUnion alts => forallb well_formed alts && pairwise_apart alts
  | TObject ms =>
      forallb (fun m => well_formed (type_of m)) ms && nodup_names (map name ms)
  | TNamed _ b => well_formed b
  | _ => true
  end.

(** ** Walking a declaration *)

(** Every type expression inside [t], [t] included. *)
Fixpoint subterms (t : ty) : list ty :=
  t :: match t with
       | TArray e => subterms e
       | TTuple es => flat_map subterms es
       | TUnion alts => flat_map subterms alts
       | TObject ms => flat_map (fun m => subterms (type_of m)) ms
       | TNamed _ b => subterms b
       | _ => []
       end.

(** Every property declared inside [t], at any depth. *)
Definition all_members (t : ty) : list (member ty) :=
  flat_map (fun s => match s with TObject ms => ms | _ => [] end) (subterms t).

(** The properties of an interface. *)
Definition members_of (t : ty) : list (member ty) :=
  match resolve t with
  | TObject ms => ms
  | _ => []
  end.

Definition member_names (t : ty) : list string := map name (members_of t).

Definition required_names (t : ty) : list string :=
  map name (filter (fun m => negb (optional m)) (members_of t)).

Definition optional_names (t : ty) : list string :=
  map name (filter (fun m => optional m) (members_of t)).

(** The type of property [k] of an interface. *)
Definition member_type (k : string) (t : ty) : option ty :=
  option_map type_of (find (fun m => String.eqb k (name m)) (members_of t)).


(** The discriminants of an enumerated type: the literals of a literal type
    or of a union of literal types. *)
Fixpoint literal_list (alts : list ty) : option (list string) :=
  match alts with
  | [] => Some []
  | a :: alts' =>
      match resolve a, literal_list alts' with
      | TLit s, Some ls => Some (s :: ls)
      | _, _ => None
      end
  end.

Definition literals (t : ty) : option (list string) :=
  match resolve t with
  | TLit s => Some [s]
  | TUnion alts => literal_list alts
  | _ => None
  end.

(** ** Induction on type expressions *)
Section TyInd.
Variable P : ty -> Prop.
Hypothesis HString : P TString.
Hypothesis HNumber : P TNumber.
Hypothesis HBoolean : P TBoolean.
Hypothesis HNull : P TNull.
Hypothesis HLit : forall s, P (TLit s).
Hypothesis HArray : forall e, P e -> P (TArray e).
Hypothesis HTuple : forall es, Forall P es -> P (TTuple es).
Hypothesis HUnion : forall alts, Forall P alts -> P (TUnion alts).
Hypothesis HObject :
  forall ms, Forall (fun m => P (type_of m)) ms -> P (TObject ms).
Hypothesis HNamed : forall n b, P b -> P (TNamed n b).

Fixpoint ty_ind' (t : ty) : P t :=
  match t with
  | TString => HString
  | TNumber => HNumber
  | TBoolean => HBoolean
  | TNull => HNull
  | TLit s => HLit s
  | TArray e => HArray e (ty_ind' e)
  | TTuple es =>
      HTuple es
        ((fix all (l : list ty) : Forall P l :=
            match l with
            | [] => Forall_nil P
            | e :: l' => Forall_cons e (ty_ind' e) (all l')
            end) es)
  | TUnion alts =>
      HUnion alts
        ((fix all (l : list ty) : Forall P l :=
            match l with
            | [] => Forall_nil P
            | e :: l' => Forall_cons e (ty_ind' e) (all l')
            end) alts)
  | TObject ms =>
      HObject ms
        ((fix all (l : list (member ty)) : Forall (fun m => P (type_of m)) l :=
            match l with
            | [] => Forall_nil _
            | m :: l' => Forall_cons m (ty_ind' (type_of m)) (all l')
            end) ms)
  | TNamed n b => HNamed n b (ty_ind' b)
  end.
End TyInd.

(** ** Quantities, identifiers and payments *)

(** The declared names of the monetary and large-integer quantities. *)
Definition quantity_names : list string :=
  ["Uint128"; "Uint64"; "Decimal"; "Timestamp"].

(** The properties that hold a pool identifier or a query limit. *)
Definition counter_names : list string := ["id"; "pool_id"; "limit"].

(** The decimal numeral of a natural number of any size: how the contract
    writes a [Uint128], a [Uint64] or a [Timestamp]. *)
Definition decimal (k : N) : string := NilEmpty.string_of_uint (N.to_uint k).

(** A use of a quantity name stands for [string]. *)
Definition quantity_is_string (t : ty) : bool :=
  match t with
  | TNamed n b =>
      if mem n quantity_names
      then match resolve b with TString => true | _ => false end
      else true
  | _ => true
  end.

(** A pool identifier is a required [number]; a limit is a [number], or
    [number | null] where the property is optional. *)
Definition counter_is_number (m : member ty) : bool :=
  if mem (name m) counter_names
  then match type_of m with
       | TNumber => true
       | TUnion [TNumber; TNull] => String.eqb (name m) "limit" && optional m
       | _ => false
       end
  else true.

(** The payment breakdowns of a [Swap]. *)
Definition payment_names : list string :=
  ["seller_payment"; "royalty_payment"; "finder_payment"; "nft_payment"].

Section Payments.
Context {number : Type}.

(** Property [k] is there and is not [null]. *)
Definition present (k : string) (v : json number) : bool :=
  match field k v with
  | Some JNull | None => false
  | Some _ => true
  end.

(** How many payment breakdowns a swap record carries. *)
Definition payments_present (v : json number) : nat :=
  length (filter (fun k => present k v) payment_names).
End Payments.

(** A property whose type is an enumerated string type. *)
Definition discriminator (m : member ty) : bool :=
  match literals (type_of m) with
  | Some _ => true
  | None => false
  end.

(** The alternatives of a union type. *)
Definition alternatives (t : ty) : list ty :=
  match resolve t with
  | TUnion alts => alts
  | _ => []
  end.

(** ** Sample values *)

Definition token_payment (a amt : string) : json Z :=
  JObj [("address", JStr a); ("amount", JStr amt)].

(** A swap record that carries all four payment breakdowns. *)
Definition swap_with_every_payment : json Z :=
  JObj [ ("finder_payment", token_payment "finder" "1");
         ("network_fee", JStr "2");
         ("nft_payment", JObj [("address", JStr "buyer");
                               ("nft_token_id", JStr "7")]);
         ("pool_id", JNum 1%Z);
         ("royalty_payment", token_payment "creator" "5");
         ("seller_payment", token_payment "seller" "92");
         ("spot_price", JStr "100");
         ("transaction_type", JStr "sell") ].

Definition pool_quote_sample : json Z :=
  JObj [ ("collection", JStr "stars1collection");
         ("id", JNum 3%Z);
         ("quote_price", JStr "340282366920938463463374607431768211455") ].

Definition nft_quote_sample : json Z :=
  JObj [ ("address", JStr "stars1pool");
         ("amount", JStr "1000000");
         ("source", JStr "infinity") ].

Definition sell_operation : json Z :=
  JObj [ ("collection", JStr "stars1collection");
         ("denom", JStr "ustars");
         ("sell_orders", JArr [JObj [("input_token_id", JStr "7");
                                     ("min_output", JStr "100")]]) ].

Definition buy_operation : json Z :=
  JObj [ ("collection", JStr "stars1collection");
         ("denom", JStr "ustars");
         ("max_inputs", JArr [JStr "100"]) ].

(** An execute message that names both operations at once. *)
Definition execute_both : json Z :=
  JObj [ ("swap_nfts_for_tokens", sell_operation);
         ("swap_tokens_for_nfts", buy_operation) ].

Definition quote_query : json Z :=
  JObj [ ("collection", JStr "stars1collection");
         ("denom", JStr "ustars");
         ("limit", JNum 10%Z) ].

(** A query message that names both operations at once. *)
Definition query_both : json Z :=
  JObj [ ("nfts_for_tokens", quote_query); ("tokens_for_nfts", quote_query) ].

Definition pool_sample : json Z :=
  JObj [ ("bonding_curve", JStr "linear");
         ("collection", JStr "stars1collection");
         ("delta", JStr "10");
         ("finders_fee_percent", JStr "0.5");
         ("id", JNum 1%Z);
         ("is_active", JBool true);
         ("nft_token_ids", JArr [JStr "7"; JStr "8"]);
         ("owner", JStr "stars1owner");
         ("pool_type", JStr "trade");
         ("reinvest_nfts", JBool false);
         ("reinvest_tokens", JBool true);
         ("spot_price", JStr "100");
         ("swap_fee_percent", JStr "1.25");
         ("total_tokens", JStr "5000") ].


(** ** Comparing declarations *)

(** A type without its declared names: TypeScript compares types by
    structure, so [Addr], [Uint128] and [string] are one type. *)
Fixpoint erase (t : ty) : ty :=
  match t with
  | TArray e => TArray (erase e)
  | TTuple es => TTuple (map erase es)
  | TUnion alts => TUnion (map erase alts)
  | TObject ms =>
      TObject (map (fun m => Member (name m) (optional m) (erase (type_of m))) ms)
  | TNamed _ b => erase b
  | _ => t
  end.

(** Two alternatives that no value can have at once: different literals, or
    values built with different JSON constructors. *)
Definition disjoint_types (a b : ty) : bool :=
  match resolve a, resolve b with
  | TLit s, TLit s' => negb (String.eqb s s')
  | ra, rb => kind_differs (kind_of ra) (kind_of rb)
  end.

Fixpoint pairwise_disjoint (alts : list ty) : bool :=
  match alts with
  | [] => true
  | a :: alts' => forallb (disjoint_types a) alts' && pairwise_disjoint alts'
  end.

(** A union all of whose alternatives are object types, as the two message
    types of the router are. *)
Definition object_union (alts : list ty) : bool :=
  forallb (fun a => match resolve a with TObject _ => true | _ => false end) alts.

(** The pricing part of [pool_sample]: a [PoolInfo] that is no [Pool]. *)
Definition pool_info_sample : json Z :=
  JObj [ ("bonding_curve", JStr "linear");
         ("collection", JStr "stars1collection");
         ("delta", JStr "10");
         ("finders_fee_percent", JStr "0.5");
         ("pool_type", JStr "trade");
         ("reinvest_nfts", JBool false);
         ("reinvest_tokens", JBool true);
         ("spot_price", JStr "100");
         ("swap_fee_percent", JStr "1.25") ].

(** ** Values a declaration excludes *)

(** The JSON constructor of a value. *)
Definition kind_of_value {number : Type} (j : json number) : kind :=
  match j with
  | JNull => KNull
  | JBool _ => KBool
  | JNum _ => KNum
  | JStr _ => KStr
  | JArr _ => KArr
  | JObj _ => KObj
  end.

(** [violates t j]: somewhere in [j], followed along [t], a required property
    is missing, a string is not the declared literal, a value is built with
    another JSON constructor than its type, or a tuple has another length
    than its type.  The place may be the value itself, a property of an
    object, an element of an array or a component of a tuple, at any depth;
    a value violates a union when it violates every alternative. *)
Inductive violates {number : Type} : ty -> json number -> Prop :=
| violates_kind t j :
    kind_differs (kind_of (resolve t)) (kind_of_value j) = true ->
    violates t j
| violates_length t es l :
    resolve t = TTuple es -> length l <> length es ->
    violates t (JArr l)
| violates_missing t ms kvs m :
    resolve t = TObject ms -> In m ms -> optional m = false ->
    lookup (name m) kvs = None ->
    violates t (JObj kvs)
| violates_property t ms kvs m x :
    resolve t = TObject ms -> In m ms -> lookup (name m) kvs = Some x ->
    violates (type_of m) x ->
    violates t (JObj kvs)
| violates_literal t s j :
    resolve t = TLit s -> j <> JStr s ->
    violates t j
| violates_element t e l x :
    resolve t = TArray e -> In x l -> violates e x ->
    violates t (JArr l)
| violates_component t es l i e x :
    resolve t = TTuple es -> nth_error es i = Some e ->
    nth_error l i = Some x -> violates e x ->
    violates t (JArr l)
| violates_union t alts j :
    resolve t = TUnion alts -> (forall a, In a alts -> violates a j) ->
    violates t j.


(** ** Names and look-up *)

Lemma mem_cons_false k k' ks :
  mem k (k' :: ks) = false -> String.eqb k k' = false /\ mem k ks = false.
Proof. unfold mem; simpl. apply orb_false_elim. Qed.

Lemma mem_In k ks : mem k ks = true <-> In k ks.
Proof.
  unfold mem. rewrite existsb_exists. split.
  - intros [x [Hin Heq]]. apply String.eqb_eq in Heq. now subst.
  - intros Hin. exists k. split; [assumption | apply String.eqb_refl].
Qed.

Lemma resolve_not_named t n b : resolve t <> TNamed n b.
Proof. induction t using ty_ind'; simpl; try discriminate; assumption. Qed.

Section CodecFacts.
Context {number : Type}.
Implicit Types (j x : json number) (l : list (json number))
  (kvs : list (string * json number)).

(** *** Decoding accepts exactly the values of the type *)

Lemma decode_list_typed (e : ty) :
  (forall j (v : denote number e), decode e j = Some v -> has_type e j = true) ->
  forall l vs, decode_list (decode e) l = Some vs -> forallb (has_type e) l = true.
Proof.
  intros IH. induction l as [|x l IHl]; simpl; intros vs H; [reflexivity|].
  destruct (decode e x) eqn:Ex; [|discriminate].
  destruct (decode_list (decode e) l) eqn:El; [|discriminate].
  rewrite (IH _ _ Ex), (IHl _ eq_refl). reflexivity.
Qed.

Lemma decode_tuple_typed (es : list ty) :
  Forall (fun e => forall j (v : denote number e),
              decode e j = Some v -> has_type e j = true) es ->
  forall l vs, decode_tuple (denote number) decode es l = Some vs ->
               tuple_typed has_type es l = true.
Proof.
  induction 1 as [|e es He Hes IH]; intros [|x l] vs; simpl; intros H;
    try reflexivity; try discriminate.
  destruct (decode e x) eqn:Ex; [|discriminate].
  destruct (decode_tuple (denote number) decode es l) eqn:El; [|discriminate].
  rewrite (He _ _ Ex), (IH _ _ El). reflexivity.
Qed.

Lemma decode_union_typed (alts : list ty) j :
  Forall (fun a => forall j (v : denote number a),
              decode a j = Some v -> has_type a j = true) alts ->
  forall v, decode_union (denote number) decode alts j = Some v ->
            existsb (fun a => has_type a j) alts = true.
Proof.
  induction 1 as [|a alts Ha Halts IH]; simpl; intros v H; [discriminate|].
  destruct (decode a j) eqn:Ea.
  - now rewrite (Ha _ _ Ea).
  - destruct (decode_union (denote number) decode alts j) eqn:Eu; [|discriminate].
    rewrite (IH _ eq_refl). apply orb_true_r.
Qed.

Lemma decode_member_typed (m : member ty) kvs :
  (forall j (v : denote number (type_of m)), decode (type_of m) j = Some v ->
                                    has_type (type_of m) j = true) ->
  forall v, decode_member (denote number) decode m kvs = Some v ->
            member_typed has_type m kvs = true.
Proof.
  destruct m as [n o t]. unfold decode_member, member_typed; simpl.
  intros IH. destruct o; simpl; intros v; destruct (lookup n kvs) as [x|]; intros H;
    try reflexivity; try discriminate.
  - destruct (decode t x) eqn:Ex; [|discriminate]. apply (IH _ _ Ex).
  - apply (IH _ _ H).
Qed.

Lemma decode_members_typed (ms : list (member ty)) kvs :
  Forall (fun m => forall j (v : denote number (type_of m)),
              decode (type_of m) j = Some v -> has_type (type_of m) j = true) ms ->
  forall vs, decode_members (denote number) decode ms kvs = Some vs ->
             forallb (fun m => member_typed has_type m kvs) ms = true.
Proof.
  induction 1 as [|m ms Hm Hms IH]; simpl; intros vs H; [reflexivity|].
  destruct (decode_member (denote number) decode m kvs) eqn:Em; [|discriminate].
  destruct (decode_members (denote number) decode ms kvs) eqn:Ems; [|discriminate].
  rewrite (decode_member_typed m kvs Hm _ Em), (IH _ eq_refl). reflexivity.
Qed.

(** What decodes at [t] is a value of [t]. *)
Lemma decode_typed (t : ty) :
  forall j (v : denote number t), decode t j = Some v -> has_type t j = true.
Proof.
  induction t using ty_ind'; intros j v; simpl.
  1-4: destruct j; intros Hd; try discriminate Hd; reflexivity.
  - destruct j; intros Hd; try discriminate Hd.
    destruct (String.eqb s s0); [reflexivity | discriminate].
  - destruct j; intros Hd; try discriminate Hd.
    eapply decode_list_typed; eauto.
  - destruct j; intros Hd; try discriminate Hd.
    eapply decode_tuple_typed; eauto.
  - apply decode_union_typed; assumption.
  - destruct j; intros Hd; try discriminate Hd.
    eapply decode_members_typed; eauto.
  - apply IHt.
Qed.

(** What does not inhabit [t] is rejected. *)
Lemma decode_rejects (t : ty) j : has_type t j = false -> decode t j = None.
Proof.
  intros H. destruct (decode t j) as [v|] eqn:E; [|reflexivity].
  apply decode_typed in E. congruence.
Qed.
(** *** Every value of the type decodes *)

Lemma typed_decode_list (e : ty) :
  (forall j, has_type e j = true -> exists v, decode e j = Some v) ->
  forall l, forallb (has_type e) l = true ->
            exists vs, decode_list (decode e) l = Some vs.
Proof.
  intros IH. induction l as [|x l IHl]; simpl; intros Hl.
  - now exists [].
  - apply andb_prop in Hl. destruct Hl as [Hx Hl].
    destruct (IH _ Hx) as [v ->]. destruct (IHl Hl) as [vs ->].
    now exists (v :: vs).
Qed.

Lemma typed_decode_tuple (es : list ty) :
  Forall (fun e => forall j, has_type e j = true ->
                             exists v, decode e j = Some v) es ->
  forall l, tuple_typed has_type es l = true ->
            exists vs, decode_tuple (denote number) decode es l = Some vs.
Proof.
  induction 1 as [|e es He Hes IH]; intros [|x l]; simpl; intros Hl;
    try discriminate.
  - now exists tt.
  - apply andb_prop in Hl. destruct Hl as [Hx Hl].
    destruct (He _ Hx) as [v ->]. destruct (IH _ Hl) as [vs ->].
    now exists (v, vs).
Qed.

Lemma typed_decode_union (alts : list ty) j :
  Forall (fun a => forall j, has_type a j = true ->
                             exists v, decode a j = Some v) alts ->
  existsb (fun a => has_type a j) alts = true ->
  exists v, decode_union (denote number) decode alts j = Some v.
Proof.
  induction 1 as [|a alts Ha Halts IH]; simpl; intros Hj; [discriminate|].
  destruct (decode a j) as [v|] eqn:Ea.
  - now exists (inl v).
  - destruct (has_type a j) eqn:Et.
    + destruct (Ha _ Et) as [v Hv]. congruence.
    + destruct (IH Hj) as [v ->]. now exists (inr v).
Qed.

Lemma typed_decode_member (m : member ty) kvs :
  (forall j, has_type (type_of m) j = true ->
             exists v, decode (type_of m) j = Some v) ->
  member_typed has_type m kvs = true ->
  exists v, decode_member (denote number) decode m kvs = Some v.
Proof.
  destruct m as [n o t]. unfold decode_member, member_typed; simpl.
  intros IH. destruct o; simpl; destruct (lookup n kvs) as [x|]; intros Hm;
    try discriminate.
  - destruct (IH _ Hm) as [v ->]. now exists (Some v).
  - now exists None.
  - apply (IH _ Hm).
Qed.

Lemma typed_decode_members (ms : list (member ty)) kvs :
  Forall (fun m => forall j, has_type (type_of m) j = true ->
                             exists v, decode (type_of m) j = Some v) ms ->
  forallb (fun m => member_typed has_type m kvs) ms = true ->
  exists vs, decode_members (denote number) decode ms kvs = Some vs.
Proof.
  induction 1 as [|m ms Hm Hms IH]; simpl; intros Hall.
  - now exists tt.
  - apply andb_prop in Hall. destruct Hall as [H1 H2].
    destruct (typed_decode_member m kvs Hm H1) as [v ->].
    destruct (IH H2) as [vs ->]. now exists (v, vs).
Qed.

(** A value of [t] decodes at [t]. *)
Lemma typed_decode (t : ty) :
  forall j, has_type t j = true -> exists v, decode t j = Some v.
Proof.
  induction t using ty_ind'; intros j; simpl.
  1-4: destruct j; intros Hd; try discriminate Hd; eauto.
  - destruct j; intros Hd; try discriminate Hd. rewrite Hd. now exists tt.
  - destruct j; intros Hd; try discriminate Hd.
    now apply typed_decode_list.
  - destruct j; intros Hd; try discriminate Hd.
    now apply typed_decode_tuple.
  - now apply typed_decode_union.
  - destruct j; intros Hd; try discriminate Hd.
    now apply typed_decode_members.
  - apply IHt.
Qed.

(** *** Rejection *)

(** An object without a required property is rejected. *)
Lemma decode_members_missing (ms : list (member ty)) kvs m :
  In m ms -> optional m = false -> lookup (name m) kvs = None ->
  decode_members (denote number) decode ms kvs = None.
Proof.
  intros Hin Hreq Hmiss. induction ms as [|m' ms IH]; simpl; [contradiction|].
  destruct Hin as [->|Hin].
  - assert (Hm : decode_member (denote number) decode m kvs = None).
    { destruct m as [n o t]; simpl in *; subst o.
      unfold decode_member; simpl. now rewrite Hmiss. }
    now rewrite Hm.
  - rewrite (IH Hin). now destruct (decode_member (denote number) decode m' kvs).
Qed.

(** An object one of whose properties does not decode is rejected. *)
Lemma decode_members_bad (ms : list (member ty)) kvs m x :
  In m ms -> lookup (name m) kvs = Some x -> decode (type_of m) x = None ->
  decode_members (denote number) decode ms kvs = None.
Proof.
  intros Hin Hx Hbad. induction ms as [|m' ms IH]; simpl; [contradiction|].
  destruct Hin as [->|Hin].
  - assert (Hm : decode_member (denote number) decode m kvs = None).
    { destruct m as [n o t]; simpl in *.
      unfold decode_member; simpl. rewrite Hx, Hbad. now destruct o. }
    now rewrite Hm.
  - rewrite (IH Hin). now destruct (decode_member (denote number) decode m' kvs).
Qed.

(** A value that no alternative accepts is rejected. *)
Lemma decode_union_none (alts : list ty) j :
  Forall (fun a => decode a j = None) alts ->
  decode_union (denote number) decode alts j = None.
Proof.
  induction 1 as [|a alts Ha Halts IH]; simpl; [reflexivity|].
  now rewrite Ha, IH.
Qed.

Lemma decode_resolve (t : ty) j :
  decode t j = None <-> decode (resolve t) j = None.
Proof. induction t using ty_ind'; simpl; try tauto. Qed.

Lemma has_type_resolve (t : ty) j : has_type (resolve t) j = has_type t j.
Proof. induction t using ty_ind'; simpl; try reflexivity; assumption. Qed.

Lemma literal_list_typed (alts : list ty) (lits : list string) j :
  literal_list alts = Some lits ->
  existsb (fun a => has_type a j) alts = true ->
  exists s, In s lits /\ j = JStr s.
Proof.
  revert lits. induction alts as [|a alts IH]; simpl; intros lits Hl Hj;
    [discriminate|].
  destruct (resolve a) eqn:Ea; try discriminate.
  destruct (literal_list alts) as [ls|]; [|discriminate].
  injection Hl as <-. apply orb_prop in Hj. destruct Hj as [Hj|Hj].
  - rewrite <- has_type_resolve, Ea in Hj. simpl in Hj.
    destruct j; try discriminate. apply String.eqb_eq in Hj. subst.
    exists s0. split; [now left | reflexivity].
  - destruct (IH _ eq_refl Hj) as [s' [Hin ->]]. exists s'.
    split; [now right | reflexivity].
Qed.

(** The values of an enumerated type are its literals, and nothing else. *)
Lemma literals_typed (t : ty) (lits : list string) j :
  literals t = Some lits ->
  has_type t j = true -> exists s, In s lits /\ j = JStr s.
Proof.
  unfold literals. rewrite <- has_type_resolve.
  destruct (resolve t) eqn:Et; try discriminate; simpl.
  - intros [= <-] Hj. destruct j; try discriminate.
    apply String.eqb_eq in Hj. subst. exists s0. split; [now left | reflexivity].
  - apply literal_list_typed.
Qed.

(** *** Encoding, then decoding *)

Lemma lookup_encode_absent (ms : list (member ty)) k :
  mem k (map name ms) = false ->
  forall v, lookup k (encode_members (denote number) encode ms v) = None.
Proof.
  induction ms as [|[n o t] ms IH]; simpl; intros Hk v; [reflexivity|].
  apply mem_cons_false in Hk. destruct Hk as [Hn Hk].
  destruct v as [x vs]. unfold encode_member; simpl.
  destruct o; simpl in *; [destruct x as [x|]|]; simpl;
    try rewrite Hn; now apply IH.
Qed.

Lemma decode_members_skip (ms : list (member ty)) k x kvs :
  mem k (map name ms) = false ->
  decode_members (denote number) decode ms ((k, x) :: kvs)
  = decode_members (denote number) decode ms kvs.
Proof.
  induction ms as [|[n o t] ms IH]; simpl; intros Hk; [reflexivity|].
  apply mem_cons_false in Hk. destruct Hk as [Hn Hk].
  rewrite (IH Hk). unfold decode_member; simpl.
  rewrite String.eqb_sym, Hn. reflexivity.
Qed.

Lemma decode_encode_list (e : ty) :
  (forall v : denote number e, decode e (encode e v) = Some v) ->
  forall vs : list (denote number e),
    decode_list (decode e) (map (encode e) vs) = Some vs.
Proof.
  intros IH. induction vs as [|v vs IHvs]; simpl; [reflexivity|].
  now rewrite IH, IHvs.
Qed.

Lemma decode_encode_tuple (es : list ty) :
  Forall (fun e => forall v : denote number e,
              decode e (encode e v) = Some v) es ->
  forall vs, decode_tuple (denote number) decode es
               (encode_tuple (denote number) encode es vs) = Some vs.
Proof.
  induction 1 as [|e es He Hes IH]; simpl; intros vs.
  - now destruct vs.
  - destruct vs as [v vs]; simpl. now rewrite He, IH.
Qed.

Lemma decode_encode_members (ms : list (member ty)) :
  Forall (fun m => forall v : denote number (type_of m),
              decode (type_of m) (encode (type_of m) v) = Some v) ms ->
  nodup_names (map name ms) = true ->
  forall vs, decode_members (denote number) decode ms
               (encode_members (denote number) encode ms vs) = Some vs.
Proof.
  induction 1 as [|[n o t] ms Hm Hms IH]; simpl; intros Hnd vs.
  - now destruct vs.
  - apply andb_prop in Hnd. destruct Hnd as [Hn Hnd].
    apply negb_true_iff in Hn. simpl in Hm.
    destruct vs as [x vs]. unfold encode_member, decode_member; simpl.
    destruct o; simpl in *; [destruct x as [x|]|]; simpl.
    + rewrite String.eqb_refl, Hm; simpl.
      now rewrite decode_members_skip, IH.
    + rewrite lookup_encode_absent by assumption. now rewrite IH.
    + rewrite String.eqb_refl, Hm; simpl.
      now rewrite decode_members_skip, IH.
Qed.

(** An encoding, seen at the type behind the names. *)
Lemma encode_resolve (t : ty) :
  forall v : denote number t,
  exists v' : denote number (resolve t), encode t v = encode (resolve t) v'.
Proof. induction t using ty_ind'; simpl; intros v; eauto. Qed.

Lemma apart_objects (ms ms' : list (member ty)) :
  existsb (fun m => negb (optional m) && negb (mem (name m) (map name ms')))
    ms = true ->
  forall v, decode_members (denote number) decode ms
              (encode_members (denote number) encode ms' v) = None.
Proof.
  intros Hex v. apply existsb_exists in Hex. destruct Hex as [m [Hin Hm]].
  apply andb_prop in Hm. destruct Hm as [Hreq Habs].
  apply negb_true_iff in Hreq, Habs.
  apply decode_members_missing with (m := m); try assumption.
  now apply lookup_encode_absent.
Qed.

(** [apart] is sound: an encoding of [b] does not decode at [a]. *)
Lemma apart_sound (a b : ty) :
  apart a b = true -> forall v : denote number b, decode a (encode b v) = None.
Proof.
  unfold apart. intros Hap v.
  destruct (encode_resolve b v) as [v' ->]. apply decode_resolve.
  revert v' Hap.
  destruct (resolve a) eqn:Ea, (resolve b) eqn:Eb; simpl; intros v' Hap;
    try discriminate Hap; try reflexivity;
    try (now elim (resolve_not_named _ _ _ Eb)).
  - apply negb_true_iff in Hap. now rewrite Hap.
  - now apply apart_objects.
Qed.

Lemma apart_union (a : ty) (alts : list ty) :
  forallb (apart a) alts = true ->
  forall v, decode a (encode_union (denote number) encode alts v) = None.
Proof.
  induction alts as [|b alts IH]; simpl; intros Hall v; [destruct v|].
  apply andb_prop in Hall. destruct Hall as [Hb Hall].
  destruct v as [x|y]; [now apply apart_sound | now apply IH].
Qed.

Lemma decode_encode_union (alts : list ty) :
  Forall (fun a => forall v : denote number a,
              decode a (encode a v) = Some v) alts ->
  pairwise_apart alts = true ->
  forall v, decode_union (denote number) decode alts
              (encode_union (denote number) encode alts v) = Some v.
Proof.
  induction 1 as [|a alts Ha Halts IH]; simpl; intros Hpw v; [destruct v|].
  apply andb_prop in Hpw. destruct Hpw as [Hap Hpw].
  destruct v as [x|y].
  - now rewrite Ha.
  - rewrite (apart_union a alts Hap y), (IH Hpw y). reflexivity.
Qed.

Lemma Forall_well_formed (P : ty -> Prop) (ts : list ty) :
  Forall (fun t => well_formed t = true -> P t) ts ->
  forallb well_formed ts = true -> Forall P ts.
Proof.
  induction 1 as [|t ts Ht Hts IH]; simpl; intros Hwf; constructor;
    apply andb_prop in Hwf; destruct Hwf; auto.
Qed.

Lemma Forall_members_well_formed (P : ty -> Prop) (ms : list (member ty)) :
  Forall (fun m => well_formed (type_of m) = true -> P (type_of m)) ms ->
  forallb (fun m => well_formed (type_of m)) ms = true ->
  Forall (fun m => P (type_of m)) ms.
Proof.
  induction 1 as [|m ms Hm Hms IH]; simpl; intros Hwf; constructor;
    apply andb_prop in Hwf; destruct Hwf; auto.
Qed.

(** Decoding undoes encoding, at every well-formed type. *)
Lemma decode_encode (t : ty) :
  well_formed t = true ->
  forall v : denote number t, decode t (encode t v) = Some v.
Proof.
  induction t using ty_ind'; simpl; intros Hwf v; try reflexivity.
  - now destruct v.
  - now rewrite String.eqb_refl; destruct v.
  - apply decode_encode_list. auto.
  - apply decode_encode_tuple.
    now apply (Forall_well_formed
      (fun e => forall v : denote number e, decode e (encode e v) = Some v)).
  - apply andb_prop in Hwf. destruct Hwf as [Hwf Hap].
    apply decode_encode_union; [|assumption].
    now apply (Forall_well_formed
      (fun e => forall v : denote number e, decode e (encode e v) = Some v)).
  - apply andb_prop in Hwf. destruct Hwf as [Hwf Hnd].
    apply decode_encode_members; [|assumption].
    now apply (Forall_members_well_formed
      (fun e => forall v : denote number e, decode e (encode e v) = Some v)).
  - now apply IHt.
Qed.

End CodecFacts.

(** ** Reading a typed value *)

Ltac in_list := simpl; repeat (first [left; reflexivity | right]).

Section TypingFacts.
Context {number : Type}.
Implicit Types (v x : json number).

Lemma typed_string t x :
  resolve t = TString -> has_type t x = true -> exists s, x = JStr s.
Proof.
  intros Ht. rewrite <- has_type_resolve, Ht.
  destruct x; simpl; try discriminate. eauto.
Qed.

Lemma typed_number t x :
  resolve t = TNumber -> has_type t x = true -> exists n, x = JNum n.
Proof.
  intros Ht. rewrite <- has_type_resolve, Ht.
  destruct x; simpl; try discriminate. eauto.
Qed.

Lemma typed_boolean t x :
  resolve t = TBoolean -> has_type t x = true -> exists b, x = JBool b.
Proof.
  intros Ht. rewrite <- has_type_resolve, Ht.
  destruct x; simpl; try discriminate. eauto.
Qed.

Lemma typed_nullable t x :
  has_type (nullable t) x = true -> x = JNull \/ has_type t x = true.
Proof.
  simpl. rewrite orb_false_r. intros H. apply orb_prop in H.
  destruct H as [H|H]; [now right|]. destruct x; try discriminate. now left.
Qed.

Lemma typed_object t ms v :
  resolve t = TObject ms -> has_type t v = true ->
  exists kvs, v = JObj kvs /\
              forall m, In m ms -> member_typed has_type m kvs = true.
Proof.
  intros Ht. rewrite <- has_type_resolve, Ht.
  destruct v; simpl; try discriminate. intros H. exists kvs.
  split; [reflexivity|]. now apply forallb_forall.
Qed.

(** A required property of an interface is there, with its type. *)
Lemma required_field t v k tk :
  has_type t v = true -> In (req k tk) (members_of t) ->
  exists x, field k v = Some x /\ has_type tk x = true.
Proof.
  unfold members_of. intros Hv Hin.
  destruct (resolve t) eqn:Ht; try contradiction.
  destruct (typed_object _ _ _ Ht Hv) as [kvs [-> Hms]].
  specialize (Hms _ Hin). unfold member_typed in Hms; simpl in *.
  destruct (lookup k kvs) as [x|]; [eauto | discriminate].
Qed.

(** An optional property is absent, or there with its type. *)
Lemma optional_field t v k tk :
  has_type t v = true -> In (opt k tk) (members_of t) ->
  field k v = None \/ exists x, field k v = Some x /\ has_type tk x = true.
Proof.
  unfold members_of. intros Hv Hin.
  destruct (resolve t) eqn:Ht; try contradiction.
  destruct (typed_object _ _ _ Ht Hv) as [kvs [-> Hms]].
  specialize (Hms _ Hin). unfold member_typed in Hms; simpl in *.
  destruct (lookup k kvs) as [x|]; [right; eauto | now left].
Qed.

Lemma required_string t v k tk :
  has_type t v = true -> In (req k tk) (members_of t) -> resolve tk = TString ->
  exists s, field k v = Some (JStr s).
Proof.
  intros Hv Hin Hk. destruct (required_field _ _ _ _ Hv Hin) as [x [Hx Hs]].
  destruct (typed_string _ _ Hk Hs) as [s ->]. eauto.
Qed.

Lemma required_number t v k tk :
  has_type t v = true -> In (req k tk) (members_of t) -> resolve tk = TNumber ->
  exists n, field k v = Some (JNum n).
Proof.
  intros Hv Hin Hk. destruct (required_field _ _ _ _ Hv Hin) as [x [Hx Hs]].
  destruct (typed_number _ _ Hk Hs) as [s ->]. eauto.
Qed.

Lemma required_boolean t v k tk :
  has_type t v = true -> In (req k tk) (members_of t) -> resolve tk = TBoolean ->
  exists b, field k v = Some (JBool b).
Proof.
  intros Hv Hin Hk. destruct (required_field _ _ _ _ Hv Hin) as [x [Hx Hs]].
  destruct (typed_boolean _ _ Hk Hs) as [s ->]. eauto.
Qed.

(** An optional, nullable property is absent, [null], or a value of its
    type. *)
Lemma optional_nullable_field t v k tk :
  has_type t v = true -> In (opt k (nullable tk)) (members_of t) ->
  present k v = false \/
  exists x, field k v = Some x /\ has_type tk x = true.
Proof.
  intros Hv Hin. unfold present.
  destruct (optional_field _ _ _ _ Hv Hin) as [->|[x [-> Hx]]]; [now left|].
  apply typed_nullable in Hx. destruct Hx as [->|Hx]; [now left | right; eauto].
Qed.
Lemma typed_union t alts v :
  resolve t = TUnion alts -> has_type t v = true ->
  exists a, In a alts /\ has_type a v = true.
Proof.
  intros Ht. rewrite <- has_type_resolve, Ht. simpl. intros H.
  apply existsb_exists in H. exact H.
Qed.

Lemma typed_array t x :
  has_type (TArray t) x = true ->
  exists l, x = JArr l /\ Forall (fun e => has_type t e = true) l.
Proof.
  destruct x; simpl; try discriminate. intros H. exists l.
  split; [reflexivity|]. apply Forall_forall. now apply forallb_forall.
Qed.

Lemma typed_pair t1 t2 x :
  has_type (TTuple [t1; t2]) x = true ->
  exists a b, x = JArr [a; b] /\ has_type t1 a = true /\ has_type t2 b = true.
Proof.
  destruct x as [| | | |l|]; simpl; try discriminate.
  destruct l as [|a [|b [|c l]]]; try discriminate.
  - rewrite andb_false_r. discriminate.
  - rewrite andb_true_r. intros H. apply andb_prop in H. destruct H.
    exists a, b. auto.
  - rewrite !andb_false_r. discriminate.
Qed.

End TypingFacts.

(** Decoding at an interface rejects an object without a required property. *)
Lemma decode_missing_required {number : Type} (t : ty) (k : string)
  (kvs : list (string * json number)) :
  In k (required_names t) -> lookup k kvs = None -> decode t (JObj kvs) = None.
Proof.
  intros Hk Hmiss. unfold required_names, members_of in Hk.
  apply decode_resolve. destruct (resolve t); try contradiction.
  apply in_map_iff in Hk. destruct Hk as [m [<- Hm]].
  apply filter_In in Hm. destruct Hm as [Hm Hreq].
  apply negb_true_iff in Hreq. simpl.
  now apply decode_members_missing with (m := m).
Qed.

(** Different numbers have different decimal numerals. *)
Lemma decimal_inj (k k' : N) : decimal k = decimal k' -> k = k'.
Proof.
  unfold decimal. intros H.
  assert (Hu : Some (N.to_uint k) = Some (N.to_uint k'))
    by (rewrite <- !NilEmpty.usu; now rewrite H).
  injection Hu as Hu.
  rewrite <- (Unsigned.of_to k), <- (Unsigned.of_to k'). now rewrite Hu.
Qed.

Lemma tuple_typed_nth {number : Type} (es : list ty) :
  forall (l : list (json number)) i e x,
    tuple_typed has_type es l = true ->
    nth_error es i = Some e -> nth_error l i = Some x ->
    has_type e x = true.
Proof.
  induction es as [|e' es IH]; intros [|x' l] i e x Ht He Hx;
    try discriminate Ht; destruct i as [|i]; simpl in *; try discriminate.
  - injection He as <-. injection Hx as <-.
    now apply andb_prop in Ht.
  - apply andb_prop in Ht. destruct Ht as [_ Ht]. now apply (IH l i).
Qed.

Lemma tuple_typed_same_length {number : Type} (es : list ty) :
  forall l : list (json number),
    tuple_typed has_type es l = true -> length l = length es.
Proof.
  induction es as [|e es IH]; intros [|x l]; simpl; try discriminate;
    [reflexivity|].
  intros H. apply andb_prop in H. destruct H as [_ H]. now rewrite (IH _ H).
Qed.

(** A value that violates a declaration does not have its type. *)
Lemma violates_not_typed {number : Type} (t : ty) (j : json number) :
  violates t j -> has_type t j = false.
Proof.
  induction 1 as [t j Hk
                 |t es l Ht Hlen
                 |t ms kvs m Ht Hm Hreq Hmiss
                 |t ms kvs m x Ht Hm Hx Hbad IH
                 |t s j Ht Hj
                 |t e l x Ht Hx Hbad IH
                 |t es l i e x Ht He Hx Hbad IH
                 |t alts j Ht Hall IH];
    rewrite <- has_type_resolve; [|rewrite Ht; simpl ..].
  - destruct (resolve t), j; simpl in Hk; try discriminate Hk; reflexivity.
  - destruct (tuple_typed has_type es l) eqn:Hf; [|reflexivity].
    now elim Hlen; apply tuple_typed_same_length.
  - destruct (forallb _ ms) eqn:Hf; [|reflexivity].
    pose proof (proj1 (forallb_forall _ _) Hf m Hm) as Hmt.
    unfold member_typed in Hmt. rewrite Hmiss in Hmt. congruence.
  - destruct (forallb _ ms) eqn:Hf; [|reflexivity].
    pose proof (proj1 (forallb_forall _ _) Hf m Hm) as Hmt.
    unfold member_typed in Hmt. rewrite Hx in Hmt. congruence.
  - destruct j; try reflexivity.
    destruct (String.eqb s s0) eqn:E; [|reflexivity].
    apply String.eqb_eq in E. subst. now elim Hj.
  - destruct (forallb (has_type e) l) eqn:Hf; [|reflexivity].
    pose proof (proj1 (forallb_forall _ _) Hf x Hx). congruence.
  - destruct (tuple_typed has_type es l) eqn:Hf; [|reflexivity].
    pose proof (tuple_typed_nth es l i e x Hf He Hx). congruence.
  - destruct (existsb _ alts) eqn:Hf; [|reflexivity].
    apply existsb_exists in Hf. destruct Hf as [a [Ha Hta]].
    rewrite (IH a Ha) in Hta. discriminate.
Qed.

Lemma violates_named {number : Type} (n : string) (b : ty) (j : json number) :
  violates b j -> violates (TNamed n b) j.
Proof.
  intros H. destruct H.
  - now apply violates_kind.
  - now apply violates_length with (es := es).
  - now apply violates_missing with (ms := ms) (m := m).
  - now apply violates_property with (ms := ms) (m := m) (x := x).
  - now apply violates_literal with (s := s).
  - now apply violates_element with (e := e) (x := x).
  - now apply violates_component with (es := es) (i := i) (e := e) (x := x).
  - now apply violates_union with (alts := alts).
Qed.

Lemma forallb_false_witness {A : Type} (f : A -> bool) (xs : list A) :
  forallb f xs = false -> exists a, In a xs /\ f a = false.
Proof.
  induction xs as [|a xs IH]; simpl; [discriminate|].
  destruct (f a) eqn:Fa; simpl; intros H.
  - destruct (IH H) as [a' [Hin Hf]]. exists a'. auto.
  - exists a. auto.
Qed.

Lemma tuple_untyped_component {number : Type} (es : list ty) :
  forall l : list (json number),
    tuple_typed has_type es l = false -> length l = length es ->
    exists i e x, nth_error es i = Some e /\ nth_error l i = Some x /\
                  has_type e x = false.
Proof.
  induction es as [|e es IH]; intros [|x l]; simpl; try discriminate.
  intros H Hlen. destruct (has_type e x) eqn:Hx; simpl in H.
  - injection Hlen as Hlen. destruct (IH l H Hlen) as [i [e' [x' [He [Hl Hf]]]]].
    exists (S i), e', x'. auto.
  - exists 0, e, x. auto.
Qed.

(** A value that does not have the type of a declaration violates it. *)
Lemma not_typed_violates {number : Type} (t : ty) :
  forall j : json number, has_type t j = false -> violates t j.
Proof.
  induction t using ty_ind'; intros j Hj.
  1-4: destruct j; try discriminate Hj; now apply violates_kind.
  - destruct j; try (now apply violates_kind). simpl in Hj.
    apply violates_literal with (s := s); [reflexivity|].
    intros [= ->]. now rewrite String.eqb_refl in Hj.
  - destruct j; try (now apply violates_kind). simpl in Hj.
    destruct (forallb_false_witness _ _ Hj) as [x [Hx Hf]].
    apply violates_element with (e := t) (x := x); auto.
  - destruct j as [| | | |l|]; try (now apply violates_kind). simpl in Hj.
    destruct (Nat.eq_dec (length l) (length es)) as [Hlen|Hlen].
    + destruct (tuple_untyped_component es l Hj Hlen)
        as [i [e [x [He [Hl Hf]]]]].
      apply violates_component with (es := es) (i := i) (e := e) (x := x);
        auto.
      apply nth_error_In in He.
      now apply (proj1 (Forall_forall _ _) H e He).
    + now apply violates_length with (es := es).
  - apply violates_union with (alts := alts); [reflexivity|].
    intros a Ha. apply (proj1 (Forall_forall _ _) H a Ha).
    simpl in Hj. destruct (has_type a j) eqn:Haj; [|reflexivity].
    assert (Hex : existsb (fun a => has_type a j) alts = true)
      by (apply existsb_exists; eauto).
    congruence.
  - destruct j as [| | | | |kvs]; try (now apply violates_kind). simpl in Hj.
    destruct (forallb_false_witness _ _ Hj) as [m [Hm Hf]].
    unfold member_typed in Hf.
    destruct (lookup (name m) kvs) as [x|] eqn:Hx.
    + apply violates_property with (ms := ms) (m := m) (x := x); auto.
      now apply (proj1 (Forall_forall _ _) H m Hm).
    + now apply violates_missing with (ms := ms) (m := m).
  - apply violates_named. now apply IHt.
Qed.

Lemma declared_well_formed t : In t declared_shapes -> well_formed t = true.
Proof.
  assert (H : forallb well_formed declared_shapes = true) by (vm_compute; reflexivity).
  intros Hin. now apply (proj1 (forallb_forall _ _) H).
Qed.

(** ** The claims *)

(** C1. For every shape declared in the two type files: a value of the shape,
    encoded to JSON, is accepted by the declaration and decodes to the value
    it was; decoding succeeds on exactly the JSON values the declaration
    accepts; and decoding rejects exactly the values that violate the
    declaration: those in which, at any depth (in a property, an array
    element, a tuple component, or under every alternative of a union), a
    required property is missing, a string is not the declared literal, or a
    value is of another JSON kind or tuple length than declared.  In
    particular it rejects an object that lacks
    a required property, a value that is not one of the declared string
    literals of an enumerated type, an object one of whose properties is
    rejected in turn, and a message that lacks a required property of every
    alternative of a union. *)
Theorem schema_fidelity (number : Type) (t : ty) :
  In t declared_shapes ->
  (forall v : denote number t,
      has_type t (encode t v) = true /\ decode t (encode t v) = Some v) /\
  (forall j : json number,
      has_type t j = true -> exists v, decode t j = Some v) /\
  (forall j : json number, has_type t j = false -> decode t j = None) /\
  (forall j : json number, decode t j = None <-> violates t j) /\
  (forall k (kvs : list (string * json number)),
      In k (required_names t) -> lookup k kvs = None ->
      decode t (JObj kvs) = None) /\
  (forall lits (j : json number),
      literals t = Some lits -> (forall s, In s lits -> j <> JStr s) ->
      decode t j = None) /\
  (forall m (kvs : list (string * json number)) x,
      In m (members_of t) -> lookup (name m) kvs = Some x ->
      decode (type_of m) x = None -> decode t (JObj kvs) = None) /\
  (forall kvs : list (string * json number),
      alternatives t <> [] ->
      (forall a, In a (alternatives t) ->
                 exists k, In k (required_names a) /\ lookup k kvs = None) ->
      decode t (JObj kvs) = None).
Proof.
  intros Hin. pose proof (declared_well_formed t Hin) as Hwf.
  split; [|split; [|split; [|split; [|split; [|split; [|split]]]]]].
  - intros v. split; [|now apply decode_encode].
    eapply decode_typed. now apply decode_encode.
  - apply typed_decode.
  - apply decode_rejects.
  - intros j. split; intros Hj.
    + apply not_typed_violates. destruct (has_type t j) eqn:Ht; [|reflexivity].
      destruct (typed_decode t j Ht) as [v Hv]. congruence.
    + apply decode_rejects. now apply violates_not_typed.
  - intros k kvs. apply decode_missing_required.
  - intros lits j Hl Hnot. apply decode_rejects.
    destruct (has_type t j) eqn:Hj; [|reflexivity].
    destruct (literals_typed _ _ _ Hl Hj) as [s [Hs ->]].
    now elim (Hnot s Hs).
  - intros m kvs x Hm Hx Hbad. unfold members_of in Hm.
    apply decode_resolve. destruct (resolve t); try contradiction. simpl.
    now apply decode_members_bad with (m := m) (x := x).
  - intros kvs Hne Hall. unfold alternatives in *.
    apply decode_resolve. destruct (resolve t); try (now elim Hne). simpl.
    apply decode_union_none. apply Forall_forall. intros a Ha.
    destruct (Hall a Ha) as [k [Hk Hmiss]].
    now apply decode_missing_required with (k := k).
Qed.

Lemma schema_fidelity_witness :
  (forall v : denote Z InfinityPool.Swap,
      has_type InfinityPool.Swap (encode InfinityPool.Swap v) = true /\
      decode InfinityPool.Swap (encode InfinityPool.Swap v) = Some v) /\
  decode InfinityPool.TokenPayment (JObj [("address", JStr "stars1")] : json Z)
    = None /\
  decode InfinityPool.PoolType (JStr "pool" : json Z) = None /\
  decode InfinityRouter.ExecuteMsg (JObj [("swap", buy_operation)]) = None /\
  decode InfinityPool.SwapResponse
    (JObj [("swaps", JArr [JObj []])] : json Z) = None /\
  decode InfinityRouter.ExecuteMsg
    (JObj [("swap_nfts_for_tokens", JObj [("collection", JStr "c")])] : json Z)
    = None /\
  decode InfinityPool.PoolsByIdResponse
    (JObj [("pools", JArr [JArr [JNum 1%Z; JObj [("id", JNum 1%Z)]]])])
    = None.
Proof.
  split; [|split; [|split; [|split; [|split]]]].
  - apply (schema_fidelity Z InfinityPool.Swap). unfold declared_shapes. in_list.
  - assert (Hin : In InfinityPool.TokenPayment declared_shapes)
      by (unfold declared_shapes; in_list).
    destruct (schema_fidelity Z InfinityPool.TokenPayment Hin)
      as [_ [_ [_ [_ [Hmiss _]]]]].
    apply (Hmiss "amount"); [in_list | reflexivity].
  - assert (Hin : In InfinityPool.PoolType declared_shapes)
      by (unfold declared_shapes; in_list).
    destruct (schema_fidelity Z InfinityPool.PoolType Hin)
      as [_ [_ [_ [_ [_ [Hlit _]]]]]].
    apply (Hlit ["token"; "nft"; "trade"]); [reflexivity|].
    intros s [<-|[<-|[<-|[]]]]; discriminate.
  - assert (Hin : In InfinityRouter.ExecuteMsg declared_shapes)
      by (unfold declared_shapes; in_list).
    destruct (schema_fidelity Z InfinityRouter.ExecuteMsg Hin)
      as [_ [_ [_ [_ [_ [_ [_ Hop]]]]]]].
    apply Hop; [discriminate|].
    intros a [<-|[<-|[]]];
      [exists "swap_nfts_for_tokens" | exists "swap_tokens_for_nfts"];
      (split; [in_list | reflexivity]).
  - (* an element of the list lacks every required property of a swap *)
    assert (Hin : In InfinityPool.SwapResponse declared_shapes)
      by (unfold declared_shapes; in_list).
    destruct (schema_fidelity Z InfinityPool.SwapResponse Hin)
      as [_ [_ [_ [Hviol _]]]].
    apply (proj2 (Hviol _)).
    eapply violates_property with (m := req "swaps" (TArray InfinityPool.Swap));
      [reflexivity | in_list | reflexivity |].
    eapply violates_element; [reflexivity | left; reflexivity |].
    eapply violates_missing
      with (m := req "network_fee" InfinityPool.Uint128);
      [reflexivity | in_list | reflexivity | reflexivity].
  - split.
    + (* the operand of the named operation lacks [denom]; the other
         operation is not named *)
      assert (Hin : In InfinityRouter.ExecuteMsg declared_shapes)
        by (unfold declared_shapes; in_list).
      destruct (schema_fidelity Z InfinityRouter.ExecuteMsg Hin)
        as [_ [_ [_ [Hviol _]]]].
      apply (proj2 (Hviol _)). eapply violates_union; [reflexivity|].
      intros a [<-|[<-|[]]].
      * eapply violates_property; [reflexivity | left; reflexivity
                                  | reflexivity |].
        eapply violates_missing with (m := req "denom" TString);
          [reflexivity | in_list | reflexivity | reflexivity].
      * eapply violates_missing; [reflexivity | left; reflexivity
                                 | reflexivity | reflexivity].
    + (* the pool of an entry, a component of a tuple under [Pool | null],
         lacks [owner] *)
      assert (Hin : In InfinityPool.PoolsByIdResponse declared_shapes)
        by (unfold declared_shapes; in_list).
      destruct (schema_fidelity Z InfinityPool.PoolsByIdResponse Hin)
        as [_ [_ [_ [Hviol _]]]].
      apply (proj2 (Hviol _)).
      eapply violates_property; [reflexivity | left; reflexivity
                                | reflexivity |].
      eapply violates_element; [reflexivity | left; reflexivity |].
      eapply violates_component with (i := 1);
        [reflexivity | reflexivity | reflexivity |].
      eapply violates_union; [reflexivity|].
      intros a [<-|[<-|[]]].
      * eapply violates_missing with (m := req "owner" InfinityPool.Addr);
          [reflexivity | in_list | reflexivity | reflexivity].
      * now apply violates_kind.
Defined.

(** C2. In every declared shape, every use of [Uint128], [Uint64], [Decimal]
    or [Timestamp] stands for [string]: the values of such a field are JSON
    strings, never JSON numbers; the decimal numeral of a natural number of
    any size is a value of the field, as is every string. *)
Theorem quantities_are_strings (number : Type) (t : ty) (n : string) (b : ty) :
  In t declared_shapes ->
  In (TNamed n b) (subterms t) ->
  In n quantity_names ->
  resolve (TNamed n b) = TString /\
  (forall j : json number,
      has_type (TNamed n b) j = true -> exists s, j = JStr s) /\
  (forall x : number, has_type (TNamed n b) (JNum x) = false) /\
  (forall k : N, @has_type number (TNamed n b) (JStr (decimal k)) = true) /\
  (forall s : string, @has_type number (TNamed n b) (JStr s) = true).
Proof.
  intros Ht Hsub Hn.
  assert (Hall : forallb (fun t => forallb quantity_is_string (subterms t))
                   declared_shapes = true) by (vm_compute; reflexivity).
  pose proof (proj1 (forallb_forall _ _) Hall t Ht) as Hq. simpl in Hq.
  pose proof (proj1 (forallb_forall _ _) Hq _ Hsub) as Hb.
  unfold quantity_is_string in Hb.
  apply mem_In in Hn. rewrite Hn in Hb.
  assert (Hr : resolve (TNamed n b) = TString).
  { simpl. destruct (resolve b); try discriminate. reflexivity. }
  split; [assumption|]. split; [|split; [|split]].
  - intros j. now apply typed_string.
  - intros x. now rewrite <- has_type_resolve, Hr.
  - intros k. now rewrite <- has_type_resolve, Hr.
  - intros s. now rewrite <- has_type_resolve, Hr.
Qed.

Lemma quantities_are_strings_witness :
  In InfinityPool.Pool declared_shapes /\
  In InfinityPool.Uint128 (subterms InfinityPool.Pool) /\
  In "Uint128" quantity_names /\
  @has_type Z InfinityPool.Uint128
    (JStr "340282366920938463463374607431768211455") = true /\
  has_type InfinityPool.Uint128 (JNum 1%Z) = false.
Proof.
  assert (H1 : In InfinityPool.Pool declared_shapes)
    by (unfold declared_shapes; in_list).
  assert (H2 : In (TNamed "Uint128" TString) (subterms InfinityPool.Pool))
    by in_list.
  assert (H3 : In "Uint128" quantity_names) by in_list.
  destruct (quantities_are_strings Z InfinityPool.Pool "Uint128" TString H1 H2 H3)
    as [_ [_ [Hn [_ Hs]]]].
  repeat split; first [assumption | apply Hs | apply Hn].
Defined.

(** A token payment is an (address, amount) pair of strings. *)
Lemma token_payment_pair {number : Type} (p : json number) :
  has_type InfinityPool.TokenPayment p = true ->
  exists a amt, field "address" p = Some (JStr a) /\
                field "amount" p = Some (JStr amt).
Proof.
  intros Hp.
  destruct (required_string _ _ "address" TString Hp) as [a Ha];
    [in_list | reflexivity |].
  destruct (required_string _ _ "amount" InfinityPool.Uint128 Hp) as [amt Hamt];
    [in_list | reflexivity |].
  eauto.
Qed.

(** An NFT payment is an (address, token id) pair of strings. *)
Lemma nft_payment_pair {number : Type} (p : json number) :
  has_type InfinityPool.NftPayment p = true ->
  exists a id, field "address" p = Some (JStr a) /\
               field "nft_token_id" p = Some (JStr id).
Proof.
  intros Hp.
  destruct (required_string _ _ "address" TString Hp) as [a Ha];
    [in_list | reflexivity |].
  destruct (required_string _ _ "nft_token_id" TString Hp) as [id Hid];
    [in_list | reflexivity |].
  eauto.
Qed.

(** The direction of a swap is ["sell"] or ["buy"]. *)
Lemma transaction_type_values {number : Type} (x : json number) :
  has_type InfinityPool.TransactionType x = true ->
  x = JStr "sell" \/ x = JStr "buy".
Proof.
  intros Hx.
  destruct (literals_typed InfinityPool.TransactionType ["sell"; "buy"] x eq_refl Hx)
    as [s [[<-|[<-|[]]] ->]]; auto.
Qed.

(** C3, as the code has it.  A [Swap] declares eight properties and no other:
    the direction (sell or buy), the spot price, the pool id and the network
    fee, all required, and four optional payment breakdowns, each absent,
    null or a pair: (address, amount) for the seller, royalty and finder
    payments and (address, token id) for the NFT payment.  A swap value may
    carry all four breakdowns. *)
Theorem swap_record (number : Type) (v : json number) :
  has_type InfinityPool.Swap v = true ->
  member_names InfinityPool.Swap =
    ["finder_payment"; "network_fee"; "nft_payment"; "pool_id";
     "royalty_payment"; "seller_payment"; "spot_price"; "transaction_type"] /\
  (field "transaction_type" v = Some (JStr "sell") \/
   field "transaction_type" v = Some (JStr "buy")) /\
  (exists s, field "spot_price" v = Some (JStr s)) /\
  (exists n, field "pool_id" v = Some (JNum n)) /\
  (exists s, field "network_fee" v = Some (JStr s)) /\
  (forall k, In k ["seller_payment"; "royalty_payment"; "finder_payment"] ->
     present k v = false \/
     exists p a amt, field k v = Some p /\
                     field "address" p = Some (JStr a) /\
                     field "amount" p = Some (JStr amt)) /\
  (present "nft_payment" v = false \/
   exists p a id, field "nft_payment" v = Some p /\
                  field "address" p = Some (JStr a) /\
                  field "nft_token_id" p = Some (JStr id)) /\
  payments_present v <= 4.
Proof.
  intros Hv. split; [reflexivity|].
  split; [|split; [|split; [|split; [|split; [|split]]]]].
  - destruct (required_field _ _ "transaction_type" InfinityPool.TransactionType Hv)
      as [x [Hx Ht]]; [in_list|].
    rewrite Hx. destruct (transaction_type_values x Ht) as [->| ->]; auto.
  - apply (required_string _ _ _ InfinityPool.Uint128 Hv); [in_list | reflexivity].
  - apply (required_number _ _ _ TNumber Hv); [in_list | reflexivity].
  - apply (required_string _ _ _ InfinityPool.Uint128 Hv); [in_list | reflexivity].
  - intros k Hk.
    assert (Hin : In (opt k (nullable InfinityPool.TokenPayment))
                     (members_of InfinityPool.Swap)).
    { destruct Hk as [<-|[<-|[<-|[]]]]; in_list. }
    destruct (optional_nullable_field _ _ _ _ Hv Hin) as [Hn|[p [Hp Htp]]];
      [now left | right].
    destruct (token_payment_pair p Htp) as [a [amt [Ha Hamt]]].
    exists p, a, amt. auto.
  - destruct (optional_nullable_field _ _ "nft_payment" InfinityPool.NftPayment Hv)
      as [Hn|[p [Hp Htp]]]; [in_list | now left | right].
    destruct (nft_payment_pair p Htp) as [a [id [Ha Hid]]].
    exists p, a, id. auto.
  - unfold payments_present.
    etransitivity; [apply filter_length_le | simpl; lia].
Qed.

Lemma swap_record_witness :
  has_type InfinityPool.Swap swap_with_every_payment = true /\
  payments_present swap_with_every_payment = 4 /\
  exists s, field "network_fee" swap_with_every_payment = Some (JStr s).
Proof.
  assert (H : has_type InfinityPool.Swap swap_with_every_payment = true)
    by (vm_compute; reflexivity).
  split; [exact H|]. split; [vm_compute; reflexivity|].
  apply (swap_record Z swap_with_every_payment H).
Defined.

(** C3, as the spec words it, fails: a value of [Swap] with the network fee
    and all four payment breakdowns has a property outside the listed ones
    and more than three breakdowns. *)
Lemma swap_carries_more_than_stated :
  has_type InfinityPool.Swap swap_with_every_payment = true /\
  ~ (incl (keys swap_with_every_payment)
       ["transaction_type"; "spot_price"; "pool_id"; "seller_payment";
        "royalty_payment"; "finder_payment"; "nft_payment"]) /\
  ~ (payments_present swap_with_every_payment <= 3).
Proof.
  split; [vm_compute; reflexivity|]. split.
  - intros Hincl. specialize (Hincl "network_fee").
    simpl in Hincl.
    assert (Hk : In "network_fee"
      ["transaction_type"; "spot_price"; "pool_id"; "seller_payment";
       "royalty_payment"; "finder_payment"; "nft_payment"]) by (apply Hincl; in_list).
    simpl in Hk. repeat (destruct Hk as [Hk|Hk]; [discriminate Hk|]). exact Hk.
  - vm_compute. intros H. repeat (apply le_S_n in H). inversion H.
Qed.

(** C9. Every [Swap] value carries the network fee, a [Uint128] string: the
    property is required, next to the four optional payment breakdowns, and a
    value without it is not a [Swap]. *)
Theorem swap_network_fee (number : Type) (v : json number) :
  has_type InfinityPool.Swap v = true ->
  In "network_fee" (required_names InfinityPool.Swap) /\
  member_type "network_fee" InfinityPool.Swap = Some InfinityPool.Uint128 /\
  optional_names InfinityPool.Swap =
    ["finder_payment"; "nft_payment"; "royalty_payment"; "seller_payment"] /\
  (exists s, field "network_fee" v = Some (JStr s)) /\
  field "network_fee" v <> None.
Proof.
  intros Hv.
  assert (Hfee : exists s, field "network_fee" v = Some (JStr s)).
  { apply (required_string _ _ _ InfinityPool.Uint128 Hv); [in_list | reflexivity]. }
  repeat split; try reflexivity; try assumption.
  - in_list.
  - destruct Hfee as [s ->]. discriminate.
Qed.

Lemma swap_network_fee_witness :
  has_type InfinityPool.Swap swap_with_every_payment = true /\
  field "network_fee" swap_with_every_payment <> None.
Proof.
  assert (H : has_type InfinityPool.Swap swap_with_every_payment = true)
    by (vm_compute; reflexivity).
  split; [exact H|].
  apply (swap_network_fee Z swap_with_every_payment H).
Defined.

(** C4, as the code has it.  [SwapParams] of the pool contract has exactly two
    properties, both required: the deadline, a [Timestamp] string, and the
    robust flag, a boolean.  [SwapParamsForString] of the router has no
    deadline: its two properties, the asset recipient (a string or null) and
    the robust flag (a boolean or null), are both optional. *)
Theorem swap_params_shapes (number : Type) (v : json number) :
  (has_type InfinityPool.SwapParams v = true ->
   required_names InfinityPool.SwapParams = ["deadline"; "robust"] /\
   optional_names InfinityPool.SwapParams = [] /\
   (exists s, field "deadline" v = Some (JStr s)) /\
   (exists b, field "robust" v = Some (JBool b))) /\
  (has_type InfinityRouter.SwapParamsForString v = true ->
   required_names InfinityRouter.SwapParamsForString = [] /\
   optional_names InfinityRouter.SwapParamsForString = ["asset_recipient"; "robust"] /\
   (present "asset_recipient" v = false \/
    exists s, field "asset_recipient" v = Some (JStr s)) /\
   (present "robust" v = false \/
    exists b, field "robust" v = Some (JBool b))).
Proof.
  split; intros Hv; (split; [reflexivity|]); (split; [reflexivity|]); split.
  - apply (required_string _ _ _ InfinityPool.Timestamp Hv); [in_list | reflexivity].
  - apply (required_boolean _ _ _ TBoolean Hv); [in_list | reflexivity].
  - destruct (optional_nullable_field _ _ "asset_recipient" TString Hv)
      as [Hn|[x [Hx Hs]]]; [in_list | now left | right].
    destruct (typed_string TString x eq_refl Hs) as [s ->]. eauto.
  - destruct (optional_nullable_field _ _ "robust" TBoolean Hv)
      as [Hn|[x [Hx Hs]]]; [in_list | now left | right].
    destruct (typed_boolean TBoolean x eq_refl Hs) as [b ->]. eauto.
Qed.

Lemma swap_params_shapes_witness :
  (exists s, field "deadline"
     (JObj [("deadline", JStr "1700000000000000000"); ("robust", JBool true)]
        : json Z)
     = Some (JStr s)) /\
  (present "robust" (JObj [("robust", JBool false)] : json Z) = false \/
   exists b, field "robust" (JObj [("robust", JBool false)] : json Z)
             = Some (JBool b)).
Proof.
  split.
  - apply (proj1 (swap_params_shapes Z
      (JObj [("deadline", JStr "1700000000000000000"); ("robust", JBool true)]))).
    vm_compute; reflexivity.
  - apply (proj2 (swap_params_shapes Z (JObj [("robust", JBool false)]))).
    vm_compute; reflexivity.
Defined.

(** C4, as the spec words it, fails for the router's swap parameters: the
    empty object is a [SwapParamsForString], and it has neither a deadline nor
    a robust flag. *)
Lemma router_swap_params_need_nothing :
  has_type InfinityRouter.SwapParamsForString (JObj [] : json Z) = true /\
  field "deadline" (JObj [] : json Z) = None /\
  field "robust" (JObj [] : json Z) = None /\
  ~ In "deadline" (member_names InfinityRouter.SwapParamsForString).
Proof.
  repeat split; try reflexivity.
  simpl. intros [H|[H|[]]]; discriminate H.
Qed.

(** C5, as the code has it.  A value of either router quote type carries an
    address, a quoted amount (a [Uint128] string) and a source, which is
    ["infinity"].  A [PoolQuote] carries a collection address, a quoted price
    (a [Uint128] string) and the numeric id of the pool; it declares no
    source. *)
Theorem quote_shapes (number : Type) (v : json number) :
  (has_type InfinityRouter.NftForTokensQuote v = true \/
   has_type InfinityRouter.TokensForNftQuote v = true ->
   (exists a, field "address" v = Some (JStr a)) /\
   (exists amt, field "amount" v = Some (JStr amt)) /\
   field "source" v = Some (JStr "infinity")) /\
  (has_type InfinityPool.PoolQuote v = true ->
   member_names InfinityPool.PoolQuote = ["collection"; "id"; "quote_price"] /\
   (exists a, field "collection" v = Some (JStr a)) /\
   (exists amt, field "quote_price" v = Some (JStr amt)) /\
   (exists n, field "id" v = Some (JNum n))).
Proof.
  split.
  - intros [Hv|Hv]; repeat split.
    + apply (required_string _ _ _ InfinityRouter.Addr Hv); [in_list | reflexivity].
    + apply (required_string _ _ _ InfinityRouter.Uint128 Hv); [in_list | reflexivity].
    + destruct (required_field _ _ "source" InfinityRouter.NftForTokensSource Hv)
        as [x [Hx Hs]]; [in_list|].
      destruct (literals_typed InfinityRouter.NftForTokensSource ["infinity"] x
                  eq_refl Hs) as [s [[<-|[]] ->]].
      exact Hx.
    + apply (required_string _ _ _ InfinityRouter.Addr Hv); [in_list | reflexivity].
    + apply (required_string _ _ _ InfinityRouter.Uint128 Hv); [in_list | reflexivity].
    + destruct (required_field _ _ "source" InfinityRouter.TokensForNftSource Hv)
        as [x [Hx Hs]]; [in_list|].
      destruct (literals_typed InfinityRouter.TokensForNftSource ["infinity"] x
                  eq_refl Hs) as [s [[<-|[]] ->]].
      exact Hx.
  - intros Hv. split; [reflexivity|]. split; [|split].
    + apply (required_string _ _ _ InfinityPool.Addr Hv); [in_list | reflexivity].
    + apply (required_string _ _ _ InfinityPool.Uint128 Hv); [in_list | reflexivity].
    + apply (required_number _ _ _ TNumber Hv); [in_list | reflexivity].
Qed.

Lemma quote_shapes_witness :
  field "source" nft_quote_sample = Some (JStr "infinity") /\
  exists n, field "id" pool_quote_sample = Some (JNum n).
Proof.
  split.
  - apply (proj1 (quote_shapes Z nft_quote_sample)).
    left. vm_compute; reflexivity.
  - apply (proj2 (quote_shapes Z pool_quote_sample)).
    vm_compute; reflexivity.
Defined.

(** C5, as the spec words it, fails for [PoolQuote]: a pool quote without any
    source is a value of the type, and no property of [PoolQuote] has an
    enumerated type. *)
Lemma pool_quote_has_no_source :
  has_type InfinityPool.PoolQuote pool_quote_sample = true /\
  field "source" pool_quote_sample = None /\
  ~ In "source" (member_names InfinityPool.PoolQuote) /\
  filter discriminator (members_of InfinityPool.PoolQuote) = [].
Proof.
  repeat split; try reflexivity.
  simpl. intros [H|[H|[H|[]]]]; discriminate H.
Qed.

(** C6. The enumerated string types are closed: a value of [PoolType] is one
    of ["token"], ["nft"], ["trade"]; of [BondingCurve] one of ["linear"],
    ["exponential"], ["constant_product"]; of [TransactionType] one of
    ["sell"], ["buy"]; of either quote source type ["infinity"]; each of
    these strings is a value of its type, and nothing else is. *)
Theorem enumerations_closed (number : Type) (j : json number) :
  (has_type InfinityPool.PoolType j = true <->
   j = JStr "token" \/ j = JStr "nft" \/ j = JStr "trade") /\
  (has_type InfinityPool.BondingCurve j = true <->
   j = JStr "linear" \/ j = JStr "exponential" \/ j = JStr "constant_product") /\
  (has_type InfinityPool.TransactionType j = true <->
   j = JStr "sell" \/ j = JStr "buy") /\
  (has_type InfinityRouter.NftForTokensSource j = true <-> j = JStr "infinity") /\
  (has_type InfinityRouter.TokensForNftSource j = true <-> j = JStr "infinity").
Proof.
  repeat split.
  - intros Hj.
    destruct (literals_typed InfinityPool.PoolType ["token"; "nft"; "trade"] j
                eq_refl Hj) as [s [[<-|[<-|[<-|[]]]] ->]]; auto.
  - intros [->|[->| ->]]; reflexivity.
  - intros Hj.
    destruct (literals_typed InfinityPool.BondingCurve
                ["linear"; "exponential"; "constant_product"] j eq_refl Hj)
      as [s [[<-|[<-|[<-|[]]]] ->]]; auto.
  - intros [->|[->| ->]]; reflexivity.
  - apply transaction_type_values.
  - intros [->| ->]; reflexivity.
  - intros Hj.
    destruct (literals_typed InfinityRouter.NftForTokensSource ["infinity"] j
                eq_refl Hj) as [s [[<-|[]] ->]]; auto.
  - intros ->; reflexivity.
  - intros Hj.
    destruct (literals_typed InfinityRouter.TokensForNftSource ["infinity"] j
                eq_refl Hj) as [s [[<-|[]] ->]]; auto.
  - intros ->; reflexivity.
Qed.

(** C7, as the code has it.  Each alternative of [ExecuteMsg] and of
    [QueryMsg] declares one property, the operation it names, and every value
    of either type has the property of at least one alternative: a message
    names an operation, never none. *)
Theorem operation_keys (number : Type) (v : json number) :
  map member_names (alternatives InfinityRouter.ExecuteMsg) =
    [["swap_nfts_for_tokens"]; ["swap_tokens_for_nfts"]] /\
  map member_names (alternatives InfinityRouter.QueryMsg) =
    [["nfts_for_tokens"]; ["tokens_for_nfts"]] /\
  (has_type InfinityRouter.ExecuteMsg v = true ->
   (exists x, field "swap_nfts_for_tokens" v = Some x) \/
   (exists x, field "swap_tokens_for_nfts" v = Some x)) /\
  (has_type InfinityRouter.QueryMsg v = true ->
   (exists x, field "nfts_for_tokens" v = Some x) \/
   (exists x, field "tokens_for_nfts" v = Some x)).
Proof.
  split; [reflexivity|]. split; [reflexivity|]. split; intros Hv.
  - destruct (typed_union InfinityRouter.ExecuteMsg _ v eq_refl Hv)
      as [a [[<-|[<-|[]]] Ha]].
    + left. eapply required_field with (k := "swap_nfts_for_tokens") in Ha;
        [destruct Ha as [x [Hx _]]; eauto | left; reflexivity].
    + right. eapply required_field with (k := "swap_tokens_for_nfts") in Ha;
        [destruct Ha as [x [Hx _]]; eauto | left; reflexivity].
  - destruct (typed_union InfinityRouter.QueryMsg _ v eq_refl Hv)
      as [a [[<-|[<-|[]]] Ha]].
    + left. eapply required_field with (k := "nfts_for_tokens") in Ha;
        [destruct Ha as [x [Hx _]]; eauto | left; reflexivity].
    + right. eapply required_field with (k := "tokens_for_nfts") in Ha;
        [destruct Ha as [x [Hx _]]; eauto | left; reflexivity].
Qed.

Lemma operation_keys_witness :
  (exists x, field "swap_nfts_for_tokens"
               (JObj [("swap_tokens_for_nfts", buy_operation)] : json Z) = Some x) \/
  (exists x, field "swap_tokens_for_nfts"
               (JObj [("swap_tokens_for_nfts", buy_operation)] : json Z) = Some x).
Proof.
  apply (operation_keys Z (JObj [("swap_tokens_for_nfts", buy_operation)])).
  vm_compute; reflexivity.
Defined.

(** C7, as the spec words it, fails: a message that names both operations at
    once is a value of [ExecuteMsg], and likewise of [QueryMsg]. *)
Lemma both_operations_at_once :
  has_type InfinityRouter.ExecuteMsg execute_both = true /\
  field "swap_nfts_for_tokens" execute_both = Some sell_operation /\
  field "swap_tokens_for_nfts" execute_both = Some buy_operation /\
  has_type InfinityRouter.QueryMsg query_both = true /\
  field "nfts_for_tokens" query_both = Some quote_query /\
  field "tokens_for_nfts" query_both = Some quote_query.
Proof. repeat split; vm_compute; reflexivity. Qed.

Lemma counter_is_number_inv (m : member ty) :
  counter_is_number m = true -> In (name m) counter_names ->
  type_of m = TNumber \/
  (name m = "limit" /\ optional m = true /\ type_of m = nullable TNumber).
Proof.
  unfold counter_is_number. intros H Hn. apply mem_In in Hn. rewrite Hn in H.
  destruct (type_of m) as [| | | | | | |alts| |]; try discriminate; [now left|].
  destruct alts as [|a alts]; try discriminate.
  destruct a; try discriminate.
  destruct alts as [|b alts]; try discriminate.
  destruct b; try discriminate.
  destruct alts; try discriminate.
  apply andb_prop in H. destruct H as [Hl Ho]. apply String.eqb_eq in Hl.
  right. auto.
Qed.

(** C8. The pool identifiers [Pool.id], [PoolQuote.id], [PoolNftSwap.pool_id]
    and [Swap.pool_id] are required properties of type [number], and their
    values are JSON numbers.  In every declared shape, every property named
    [id], [pool_id] or [limit] has type [number] (or [number | null], for an
    optional limit): none of its values is a string. *)
Theorem identifiers_and_limits_are_numbers (number : Type) :
  (forall v : json number,
     (has_type InfinityPool.Pool v = true ->
      exists n, field "id" v = Some (JNum n)) /\
     (has_type InfinityPool.PoolQuote v = true ->
      exists n, field "id" v = Some (JNum n)) /\
     (has_type InfinityPool.PoolNftSwap v = true ->
      exists n, field "pool_id" v = Some (JNum n)) /\
     (has_type InfinityPool.Swap v = true ->
      exists n, field "pool_id" v = Some (JNum n))) /\
  (forall (t : ty) (m : member ty),
     In t declared_shapes -> In m (all_members t) -> In (name m) counter_names ->
     (type_of m = TNumber \/
      (name m = "limit" /\ optional m = true /\ type_of m = nullable TNumber)) /\
     (forall s : string, @has_type number (type_of m) (JStr s) = false) /\
     (forall j : json number,
        has_type (type_of m) j = true -> j = JNull \/ exists n, j = JNum n)).
Proof.
  split.
  - intros v. repeat split; intros Hv;
      apply (required_number _ _ _ TNumber Hv); solve [in_list | reflexivity].
  - intros t m Ht Hm Hn.
    assert (Hall : forallb (fun t => forallb counter_is_number (all_members t))
                     declared_shapes = true) by (vm_compute; reflexivity).
    pose proof (proj1 (forallb_forall _ _) Hall t Ht) as Hq. simpl in Hq.
    pose proof (proj1 (forallb_forall _ _) Hq _ Hm) as Hb.
    pose proof (counter_is_number_inv m Hb Hn) as Hty.
    split; [exact Hty|]. split.
    + intros s. destruct Hty as [->|[_ [_ ->]]]; reflexivity.
    + intros j Hj. destruct Hty as [Hty|[_ [_ Hty]]]; rewrite Hty in Hj.
      * right. now apply (typed_number TNumber).
      * apply typed_nullable in Hj. destruct Hj as [->|Hj]; [now left | right].
        now apply (typed_number TNumber).
Qed.

Lemma identifiers_and_limits_are_numbers_witness :
  (exists n, field "id" pool_sample = Some (JNum n)) /\
  (forall s : string,
     @has_type Z (type_of (opt "limit" (nullable TNumber))) (JStr s) = false).
Proof.
  split.
  - apply (proj1 (proj1 (identifiers_and_limits_are_numbers Z) pool_sample)).
    vm_compute; reflexivity.
  - apply (proj2 (identifiers_and_limits_are_numbers Z)
             InfinityPool.QueryOptionsForUint64 (opt "limit" (nullable TNumber))).
    + unfold declared_shapes. in_list.
    + in_list.
    + in_list.
Defined.





(** ** Further properties of the declarations *)

Section DeclarationFacts.
Context {number : Type}.
Implicit Types (v x : json number) (l : list (json number))
  (kvs : list (string * json number)).

Lemma forallb_same {A : Type} (f g : A -> bool) (xs : list A) :
  (forall a : A, f a = g a) -> forallb f xs = forallb g xs.
Proof.
  intros Hfg. induction xs as [|a xs IH]; simpl; [reflexivity|].
  now rewrite Hfg, IH.
Qed.

Lemma tuple_typed_erase (es : list ty) :
  Forall (fun e => forall v, has_type (erase e) v = has_type e v) es ->
  forall l, tuple_typed has_type (map erase es) l = tuple_typed has_type es l.
Proof.
  induction 1 as [|e es He Hes IH]; intros [|x l]; simpl; try reflexivity.
  now rewrite He, IH.
Qed.

(** Names do not change the values of a type. *)
Lemma has_type_erase (t : ty) : forall v, has_type (erase t) v = has_type t v.
Proof.
  induction t using ty_ind'; intros v; simpl; try reflexivity.
  - destruct v; try reflexivity. now apply forallb_same.
  - destruct v; try reflexivity. now apply tuple_typed_erase.
  - induction H as [|a alts Ha Halts IH]; simpl; [reflexivity|].
    now rewrite Ha, IH.
  - destruct v; try reflexivity.
    induction H as [|m ms Hm Hms IH]; simpl; [reflexivity|].
    rewrite IH. f_equal. unfold member_typed; simpl.
    destruct (lookup (name m) kvs); [apply Hm | reflexivity].
  - apply IHt.
Qed.

(** Declarations of one structure have the same values. *)
Lemma same_structure (t t' : ty) :
  erase t = erase t' -> forall v, has_type t v = has_type t' v.
Proof.
  intros He v. now rewrite <- (has_type_erase t), <- (has_type_erase t'), He.
Qed.

(** An interface that declares every property of another has only values of
    the other. *)
Lemma wider_interface (a b : ty) (ms ms' : list (member ty)) v :
  resolve a = TObject ms -> resolve b = TObject ms' -> incl ms' ms ->
  has_type a v = true -> has_type b v = true.
Proof.
  intros Ha Hb Hincl Hv.
  destruct (typed_object _ _ _ Ha Hv) as [kvs [-> Hms]].
  rewrite <- has_type_resolve, Hb. simpl. apply forallb_forall.
  intros m Hm. apply Hms. now apply Hincl.
Qed.

Lemma disjoint_types_sound (a b : ty) v :
  disjoint_types a b = true -> has_type a v = true -> has_type b v = false.
Proof.
  unfold disjoint_types. rewrite <- (has_type_resolve a), <- (has_type_resolve b).
  destruct (resolve a), (resolve b); simpl; intros Hd; try discriminate Hd;
    destruct v; simpl; intros Ha; try discriminate Ha; try reflexivity.
  apply negb_true_iff in Hd. apply String.eqb_eq in Ha. subst.
  now rewrite String.eqb_sym.
Qed.

Lemma pairwise_disjoint_sound (alts : list ty) v :
  pairwise_disjoint alts = true ->
  length (filter (fun a => has_type a v) alts) <= 1.
Proof.
  induction alts as [|a alts IH]; simpl; intros H; [lia|].
  apply andb_prop in H. destruct H as [Ha H].
  destruct (has_type a v) eqn:Hv; [|auto].
  assert (Hnone : filter (fun b => has_type b v) alts = []).
  { clear IH H. induction alts as [|b alts IHb]; simpl in *; [reflexivity|].
    apply andb_prop in Ha. destruct Ha as [Hb Ha].
    rewrite (disjoint_types_sound a b v Hb Hv). auto. }
  rewrite Hnone. simpl. lia.
Qed.
End DeclarationFacts.

Lemma strings_typed {number : Type} (l : list (json number)) :
  forallb (has_type TString) l = true <->
  Forall (fun i => exists s, i = JStr s) l.
Proof.
  rewrite forallb_forall, Forall_forall. split; intros H i Hi.
  - apply (typed_string TString i eq_refl). now apply H.
  - destruct (H i Hi) as [s ->]. reflexivity.
Qed.

(** X1. A [Pool] is a [PoolInfo] with five more required properties: a value
    is a [Pool] exactly when it is a [PoolInfo] that also has a numeric [id],
    a boolean [is_active], a list of strings [nft_token_ids], and strings
    [owner] and [total_tokens]. *)
Theorem pool_extends_pool_info (number : Type) (v : json number) :
  has_type InfinityPool.Pool v = true <->
  has_type InfinityPool.PoolInfo v = true /\
  (exists n, field "id" v = Some (JNum n)) /\
  (exists b, field "is_active" v = Some (JBool b)) /\
  (exists ids, field "nft_token_ids" v = Some (JArr ids) /\
               Forall (fun i => exists s, i = JStr s) ids) /\
  (exists s, field "owner" v = Some (JStr s)) /\
  (exists s, field "total_tokens" v = Some (JStr s)).
Proof.
  split.
  - intros Hv. split; [|split; [|split; [|split; [|split]]]].
    + apply (wider_interface InfinityPool.Pool InfinityPool.PoolInfo _ _ v
               eq_refl eq_refl); [|exact Hv].
      intros m Hm. simpl in Hm.
      repeat (destruct Hm as [<-|Hm]; [in_list|]). contradiction.
    + apply (required_number _ _ _ TNumber Hv); [in_list | reflexivity].
    + apply (required_boolean _ _ _ TBoolean Hv); [in_list | reflexivity].
    + destruct (required_field _ _ "nft_token_ids" (TArray TString) Hv)
        as [x [Hx Hl]]; [in_list|].
      apply typed_array in Hl. destruct Hl as [ids [-> Hids]].
      exists ids. split; [exact Hx|].
      apply strings_typed. apply forallb_forall. now apply Forall_forall.
    + apply (required_string _ _ _ InfinityPool.Addr Hv); [in_list | reflexivity].
    + apply (required_string _ _ _ InfinityPool.Uint128 Hv);
        [in_list | reflexivity].
  - intros [Hinfo [[n Hid] [[b Hact] [[ids [Hids Hstr]] [[o Ho] [tt Htt]]]]]].
    destruct (typed_object InfinityPool.PoolInfo _ v eq_refl Hinfo)
      as [kvs [-> Hms]].
    simpl in Hid, Hact, Hids, Ho, Htt. apply strings_typed in Hstr.
    change (forallb (fun m => member_typed has_type m kvs)
              (members_of InfinityPool.Pool) = true).
    apply forallb_forall. intros m Hm. unfold members_of in Hm. simpl in Hm.
    repeat (destruct Hm as [<-|Hm];
            [first [ solve [apply Hms; in_list]
                   | unfold member_typed; simpl;
                     rewrite ?Hid, ?Hact, ?Hids, ?Ho, ?Htt; simpl;
                     solve [reflexivity | exact Hstr] ]|]).
    contradiction.
Qed.

(** X2. Declared names do not separate values.  [Config] and the pool's
    [InstantiateMsg] have the same values, and so have the router's two quote
    types and its two source types; an address, an amount, a percentage and a
    timestamp are all typed alike, in either file. *)
Theorem names_are_transparent (number : Type) (v : json number) :
  has_type InfinityPool.Config v = has_type InfinityPool.InstantiateMsg v /\
  has_type InfinityRouter.NftForTokensQuote v
  = has_type InfinityRouter.TokensForNftQuote v /\
  has_type InfinityRouter.ArrayOfNftForTokensQuote v
  = has_type InfinityRouter.ArrayOfTokensForNftQuote v /\
  has_type InfinityRouter.NftForTokensSource v
  = has_type InfinityRouter.TokensForNftSource v /\
  has_type InfinityPool.Addr v = has_type InfinityPool.Uint128 v /\
  has_type InfinityPool.Uint128 v = has_type InfinityPool.Decimal v /\
  has_type InfinityPool.Decimal v = has_type InfinityPool.Timestamp v /\
  has_type InfinityPool.Uint128 v = has_type InfinityRouter.Uint128 v /\
  has_type InfinityPool.Addr v = has_type InfinityRouter.Addr v.
Proof.
  repeat split; apply same_structure; reflexivity.
Qed.

(** X3. In every declared shape a property is optional exactly when its type
    admits [null]: what may be left out may be sent as [null], and no
    required property may be [null]. *)
Theorem optional_iff_nullable (number : Type) (t : ty) (m : member ty) :
  In t declared_shapes -> In m (all_members t) ->
  (optional m = true <-> @has_type number (type_of m) JNull = true).
Proof.
  intros Ht Hm.
  assert (Hall : forallb (fun t => forallb
                   (fun m => Bool.eqb (optional m)
                               (@has_type number (type_of m) JNull))
                   (all_members t)) declared_shapes = true)
    by (vm_compute; reflexivity).
  pose proof (proj1 (forallb_forall _ _) Hall t Ht) as Hq. simpl in Hq.
  pose proof (proj1 (forallb_forall _ _) Hq _ Hm) as Hb.
  apply Bool.eqb_prop in Hb. rewrite Hb. tauto.
Qed.

Lemma optional_iff_nullable_witness :
  (optional (opt "swap_params" (nullable InfinityRouter.SwapParamsForString))
   = true <->
   @has_type Z (nullable InfinityRouter.SwapParamsForString) JNull = true) /\
  (optional (req "network_fee" InfinityPool.Uint128) = true <->
   @has_type Z InfinityPool.Uint128 JNull = true).
Proof.
  split.
  - apply (optional_iff_nullable Z InfinityRouter.ExecuteMsg
             (opt "swap_params" (nullable InfinityRouter.SwapParamsForString))).
    + unfold declared_shapes. in_list.
    + in_list.
  - apply (optional_iff_nullable Z InfinityPool.Swap
             (req "network_fee" InfinityPool.Uint128)).
    + unfold declared_shapes. in_list.
    + in_list.
Defined.

(** X4. Apart from the unions of object types (the router's two message
    types), every union in the declarations is disjoint: a value has the type
    of at most one alternative, so a [T | null] or an enumerated value is
    read in one way only. *)
Theorem unions_are_disjoint (number : Type) (t : ty) (alts : list ty)
  (v : json number) :
  In t declared_shapes -> In (TUnion alts) (subterms t) ->
  object_union alts = false ->
  length (filter (fun a => has_type a v) alts) <= 1.
Proof.
  intros Ht Hu Hobj. apply pairwise_disjoint_sound.
  assert (Hall : forallb (fun t => forallb
                   (fun s => match s with
                             | TUnion alts =>
                                 object_union alts || pairwise_disjoint alts
                             | _ => true
                             end) (subterms t)) declared_shapes = true)
    by (vm_compute; reflexivity).
  pose proof (proj1 (forallb_forall _ _) Hall t Ht) as Hq. simpl in Hq.
  pose proof (proj1 (forallb_forall _ _) Hq _ Hu) as Hb. simpl in Hb.
  now rewrite Hobj in Hb.
Qed.

Lemma unions_are_disjoint_witness :
  length (filter (fun a => @has_type Z a JNull)
            [InfinityPool.Pool; TNull]) <= 1 /\
  length (filter (fun a => has_type a pool_sample)
            [InfinityPool.Pool; TNull]) <= 1.
Proof.
  assert (Ht : In InfinityPool.PoolsByIdResponse declared_shapes)
    by (unfold declared_shapes; in_list).
  assert (Hu : In (TUnion [InfinityPool.Pool; TNull])
                  (subterms InfinityPool.PoolsByIdResponse)) by in_list.
  split; apply (unions_are_disjoint Z _ _ _ Ht Hu); reflexivity.
Defined.

(** X5. The two pagination option types of the pool contract differ only in
    the cursor: on a value without [start_after] (absent or null) they agree,
    and a value of both types has no [start_after]. *)
Theorem query_options_share_all_but_cursor (number : Type) (v : json number) :
  (present "start_after" v = false ->
   has_type InfinityPool.QueryOptionsForUint64 v
   = has_type InfinityPool.QueryOptionsForTupleOfUint128AndUint64 v) /\
  (has_type InfinityPool.QueryOptionsForUint64 v = true ->
   has_type InfinityPool.QueryOptionsForTupleOfUint128AndUint64 v = true ->
   present "start_after" v = false).
Proof.
  destruct v as [| | | | |kvs]; try (split; intros; reflexivity).
  unfold present. simpl. unfold member_typed. simpl.
  destruct (lookup "start_after" kvs) as [[| | | | |]|]; simpl;
    split; intros; try reflexivity; try discriminate;
    rewrite ?andb_false_r in *; try discriminate.
Qed.

Lemma query_options_share_all_but_cursor_witness :
  has_type InfinityPool.QueryOptionsForUint64
    (JObj [("limit", JNum 30%Z); ("start_after", JNull)])
  = has_type InfinityPool.QueryOptionsForTupleOfUint128AndUint64
      (JObj [("limit", JNum 30%Z); ("start_after", JNull)]) /\
  present "start_after" (JObj [] : json Z) = false.
Proof.
  split.
  - apply (proj1 (query_options_share_all_but_cursor Z
                    (JObj [("limit", JNum 30%Z); ("start_after", JNull)]))).
    reflexivity.
  - apply (proj2 (query_options_share_all_but_cursor Z (JObj [])));
      reflexivity.
Defined.

(** X6. The cursor of [QueryOptionsForTupleOfUint128AndUint64], when it is
    there and not null, is a pair of exactly two elements, a string and then a
    number; the cursor of [QueryOptionsForUint64] is a single number. *)
Theorem pagination_cursors (number : Type) (v : json number) :
  (has_type InfinityPool.QueryOptionsForTupleOfUint128AndUint64 v = true ->
   present "start_after" v = false \/
   exists s n, field "start_after" v = Some (JArr [JStr s; JNum n])) /\
  (has_type InfinityPool.QueryOptionsForUint64 v = true ->
   present "start_after" v = false \/
   exists n, field "start_after" v = Some (JNum n)).
Proof.
  split; intros Hv.
  - destruct (optional_nullable_field _ _ "start_after"
                (TTuple [InfinityPool.Uint128; TNumber]) Hv)
      as [Hn|[x [Hx Hp]]]; [in_list | now left | right].
    apply typed_pair in Hp. destruct Hp as [a [b [-> [Ha Hb]]]].
    destruct (typed_string InfinityPool.Uint128 a eq_refl Ha) as [s ->].
    destruct (typed_number TNumber b eq_refl Hb) as [n ->]. eauto.
  - destruct (optional_nullable_field _ _ "start_after" TNumber Hv)
      as [Hn|[x [Hx Hp]]]; [in_list | now left | right].
    destruct (typed_number TNumber x eq_refl Hp) as [n ->]. eauto.
Qed.

Lemma pagination_cursors_witness :
  present "start_after"
    (JObj [("start_after", JArr [JStr "100"; JNum 4%Z])] : json Z) = false \/
  exists s n,
    field "start_after"
      (JObj [("start_after", JArr [JStr "100"; JNum 4%Z])] : json Z)
    = Some (JArr [JStr s; JNum n]).
Proof.
  apply (proj1 (pagination_cursors Z
                  (JObj [("start_after", JArr [JStr "100"; JNum 4%Z])]))).
  reflexivity.
Defined.

(** The elements of a list of quote sources are all ["infinity"]. *)
Lemma sources_typed {number : Type} (t : ty) (x : json number) :
  literals t = Some ["infinity"] -> has_type (TArray t) x = true ->
  exists l, x = JArr l /\ Forall (fun s => s = JStr "infinity") l.
Proof.
  intros Hlit Hx. apply typed_array in Hx. destruct Hx as [l [-> Hl]].
  exists l. split; [reflexivity|]. eapply Forall_impl; [|exact Hl].
  intros s Hs. cbv beta in Hs.
  destruct (literals_typed t ["infinity"] s Hlit Hs) as [s' [[<-|[]] ->]].
  reflexivity.
Qed.

(** A message that names the first operation of a union of this shape, with
    a collection, a denomination and a list of sell orders, is typed when the
    orders are. *)
Lemma sell_message_accepted {number : Type} (F S P other : ty) (c d : string)
  (l : list (json number)) :
  forallb (has_type S) l = true ->
  has_type
    (TUnion [TObject [req "swap_nfts_for_tokens" (TObject
               [req "collection" TString; req "denom" TString;
                opt "filter_sources" F; req "sell_orders" (TArray S);
                opt "swap_params" P])]; other])
    (JObj [("swap_nfts_for_tokens",
            JObj [("collection", JStr c); ("denom", JStr d);
                  ("sell_orders", JArr l)])]) = true.
Proof.
  intros Hl. simpl. do 2 (unfold member_typed; simpl). now rewrite Hl.
Qed.

(** The same for the second operation and its list of maximal inputs. *)
Lemma buy_message_accepted {number : Type} (F S P other : ty) (c d : string)
  (l : list (json number)) :
  forallb (has_type S) l = true ->
  has_type
    (TUnion [other; TObject [req "swap_tokens_for_nfts" (TObject
               [req "collection" TString; req "denom" TString;
                opt "filter_sources" F; req "max_inputs" (TArray S);
                opt "swap_params" P])]])
    (JObj [("swap_tokens_for_nfts",
            JObj [("collection", JStr c); ("denom", JStr d);
                  ("max_inputs", JArr l)])]) = true.
Proof.
  intros Hl. simpl. do 2 (unfold member_typed; simpl). rewrite Hl. simpl.
  apply orb_true_r.
Qed.

(** X7. An execute message of the router carries, under one of its two
    operation keys, a collection and a denomination (strings) and either a
    list of sell orders, each a token id and a minimal output (strings), or a
    list of maximal inputs (strings).  Neither list has a required length: a
    message with any list of sell orders, or any list of string inputs, the
    empty list included, is an execute message. *)
Theorem execute_operands (number : Type) :
  (forall v : json number,
     has_type InfinityRouter.ExecuteMsg v = true ->
     (exists op orders,
        field "swap_nfts_for_tokens" v = Some op /\
        (exists c, field "collection" op = Some (JStr c)) /\
        (exists d, field "denom" op = Some (JStr d)) /\
        field "sell_orders" op = Some (JArr orders) /\
        Forall (fun o => exists id out,
                    field "input_token_id" o = Some (JStr id) /\
                    field "min_output" o = Some (JStr out)) orders) \/
     (exists op inputs,
        field "swap_tokens_for_nfts" v = Some op /\
        (exists c, field "collection" op = Some (JStr c)) /\
        (exists d, field "denom" op = Some (JStr d)) /\
        field "max_inputs" op = Some (JArr inputs) /\
        Forall (fun i => exists s, i = JStr s) inputs)) /\
  (forall (c d : string) (orders : list (json number)),
     Forall (fun o => has_type InfinityRouter.SellOrder o = true) orders ->
     has_type InfinityRouter.ExecuteMsg
       (JObj [("swap_nfts_for_tokens",
               JObj [("collection", JStr c); ("denom", JStr d);
                     ("sell_orders", JArr orders)])]) = true) /\
  (forall (c d : string) (inputs : list (json number)),
     Forall (fun i => exists s, i = JStr s) inputs ->
     has_type InfinityRouter.ExecuteMsg
       (JObj [("swap_tokens_for_nfts",
               JObj [("collection", JStr c); ("denom", JStr d);
                     ("max_inputs", JArr inputs)])]) = true) /\
  has_type InfinityRouter.ExecuteMsg
    (JObj [("swap_nfts_for_tokens",
            JObj [("collection", JStr "c"); ("denom", JStr "d");
                  ("sell_orders", @JArr number [])])]) = true /\
  has_type InfinityRouter.ExecuteMsg
    (JObj [("swap_tokens_for_nfts",
            JObj [("collection", JStr "c"); ("denom", JStr "d");
                  ("max_inputs", @JArr number [])])]) = true.
Proof.
  split; [|split; [|split; [|split]]]; try reflexivity.
  - intros v Hv.
    destruct (typed_union InfinityRouter.ExecuteMsg _ v eq_refl Hv)
      as [a [[<-|[<-|[]]] Ha]]; [left | right].
    + eapply required_field with (k := "swap_nfts_for_tokens") in Ha;
        [|left; reflexivity].
      destruct Ha as [op [Hop Ht]].
      destruct (required_field _ _ "sell_orders"
                  (TArray InfinityRouter.SellOrder) Ht)
        as [x [Hx Hl]]; [in_list|].
      apply typed_array in Hl. destruct Hl as [orders [-> Horders]].
      exists op, orders. split; [exact Hop|]. split; [|split; [|split]].
      * apply (required_string _ _ _ TString Ht); [in_list | reflexivity].
      * apply (required_string _ _ _ TString Ht); [in_list | reflexivity].
      * exact Hx.
      * eapply Forall_impl; [|exact Horders]. intros o Ho. cbv beta in Ho.
        destruct (required_string _ _ "input_token_id" TString Ho) as [id Hid];
          [in_list | reflexivity |].
        destruct (required_string _ _ "min_output" InfinityRouter.Uint128 Ho)
          as [out Hout]; [in_list | reflexivity |].
        eauto.
    + eapply required_field with (k := "swap_tokens_for_nfts") in Ha;
        [|left; reflexivity].
      destruct Ha as [op [Hop Ht]].
      destruct (required_field _ _ "max_inputs"
                  (TArray InfinityRouter.Uint128) Ht)
        as [x [Hx Hl]]; [in_list|].
      apply typed_array in Hl. destruct Hl as [inputs [-> Hinputs]].
      exists op, inputs. split; [exact Hop|]. split; [|split; [|split]].
      * apply (required_string _ _ _ TString Ht); [in_list | reflexivity].
      * apply (required_string _ _ _ TString Ht); [in_list | reflexivity].
      * exact Hx.
      * eapply Forall_impl; [|exact Hinputs]. intros i Hi. cbv beta in Hi.
        now apply (typed_string InfinityRouter.Uint128).
  - intros c d orders Horders.
    apply sell_message_accepted.
    apply forallb_forall. now apply Forall_forall.
  - intros c d inputs Hinputs.
    apply buy_message_accepted.
    apply forallb_forall. intros i Hi.
    destruct (proj1 (Forall_forall _ _) Hinputs i Hi) as [s ->].
    reflexivity.
Qed.

Lemma execute_operands_witness :
  (exists op inputs,
     field "swap_tokens_for_nfts"
       (JObj [("swap_tokens_for_nfts", buy_operation)] : json Z) = Some op /\
     field "max_inputs" op = Some (JArr inputs)) /\
  has_type InfinityRouter.ExecuteMsg
    (JObj [("swap_nfts_for_tokens",
            JObj [("collection", JStr "stars1collection");
                  ("denom", JStr "ustars");
                  ("sell_orders",
                   JArr [JObj [("input_token_id", JStr "7");
                               ("min_output", JStr "100")];
                         JObj [("input_token_id", JStr "8");
                               ("min_output", JStr "90")]])])] : json Z)
  = true.
Proof.
  split.
  - destruct (proj1 (execute_operands Z)
                (JObj [("swap_tokens_for_nfts", buy_operation)]))
      as [[op [orders [Hop _]]]|[op [inputs [Hop [_ [_ [Hin _]]]]]]].
    + vm_compute; reflexivity.
    + discriminate Hop.
    + exists op, inputs. auto.
  - apply (proj1 (proj2 (execute_operands Z))).
    repeat constructor.
Defined.

(** X8. A query message of the router carries, under one of its two operation
    keys, a collection and a denomination (strings) and a required numeric
    limit; its source filter is absent, null, or a list in which every entry
    is ["infinity"]. *)
Theorem query_operands (number : Type) (v : json number) :
  has_type InfinityRouter.QueryMsg v = true ->
  exists op,
    (field "nfts_for_tokens" v = Some op \/
     field "tokens_for_nfts" v = Some op) /\
    (exists c, field "collection" op = Some (JStr c)) /\
    (exists d, field "denom" op = Some (JStr d)) /\
    (exists n, field "limit" op = Some (JNum n)) /\
    (present "filter_sources" op = false \/
     exists l, field "filter_sources" op = Some (JArr l) /\
               Forall (fun s => s = JStr "infinity") l).
Proof.
  intros Hv.
  destruct (typed_union InfinityRouter.QueryMsg _ v eq_refl Hv)
    as [a [[<-|[<-|[]]] Ha]].
  - eapply required_field with (k := "nfts_for_tokens") in Ha;
      [|left; reflexivity].
    destruct Ha as [op [Hop Ht]]. exists op.
    split; [now left|]. split; [|split; [|split]].
    + apply (required_string _ _ _ TString Ht); [in_list | reflexivity].
    + apply (required_string _ _ _ TString Ht); [in_list | reflexivity].
    + apply (required_number _ _ _ TNumber Ht); [in_list | reflexivity].
    + destruct (optional_nullable_field _ _ "filter_sources"
                  (TArray InfinityRouter.NftForTokensSource) Ht)
        as [Hn|[x [Hx Hs]]]; [in_list | now left | right].
      destruct (sources_typed InfinityRouter.NftForTokensSource x eq_refl Hs)
        as [l [-> Hl]]. eauto.
  - eapply required_field with (k := "tokens_for_nfts") in Ha;
      [|left; reflexivity].
    destruct Ha as [op [Hop Ht]]. exists op.
    split; [now right|]. split; [|split; [|split]].
    + apply (required_string _ _ _ TString Ht); [in_list | reflexivity].
    + apply (required_string _ _ _ TString Ht); [in_list | reflexivity].
    + apply (required_number _ _ _ TNumber Ht); [in_list | reflexivity].
    + destruct (optional_nullable_field _ _ "filter_sources"
                  (TArray InfinityRouter.TokensForNftSource) Ht)
        as [Hn|[x [Hx Hs]]]; [in_list | now left | right].
      destruct (sources_typed InfinityRouter.TokensForNftSource x eq_refl Hs)
        as [l [-> Hl]]. eauto.
Qed.

Lemma query_operands_witness :
  exists op,
    (field "nfts_for_tokens"
       (JObj [("tokens_for_nfts", quote_query)] : json Z) = Some op \/
     field "tokens_for_nfts"
       (JObj [("tokens_for_nfts", quote_query)] : json Z) = Some op) /\
    (exists c, field "collection" op = Some (JStr c)) /\
    (exists d, field "denom" op = Some (JStr d)) /\
    (exists n, field "limit" op = Some (JNum n)) /\
    (present "filter_sources" op = false \/
     exists l, field "filter_sources" op = Some (JArr l) /\
               Forall (fun s => s = JStr "infinity") l).
Proof.
  apply (query_operands Z (JObj [("tokens_for_nfts", quote_query)])).
  vm_compute; reflexivity.
Defined.

(** A response with one required list property, as an object with just that
    property: it is typed when every element of the list is. *)
Lemma single_list_response {number : Type} (t : ty) (k : string) (e : ty)
  (l : list (json number)) :
  resolve t = TObject [req k (TArray e)] ->
  has_type t (JObj [(k, JArr l)]) = forallb (has_type e) l.
Proof.
  intros Ht. rewrite <- has_type_resolve, Ht. simpl.
  unfold member_typed; simpl. rewrite String.eqb_refl. apply andb_true_r.
Qed.

(** X9. The list responses have no required length: the empty list is a
    response, and two lists joined are a response exactly when each is.  This
    holds for [SwapResponse], [PoolsResponse], [PoolQuoteResponse] and
    [PoolsByIdResponse] of the pool contract and for the two quote arrays of
    the router. *)
Theorem list_responses_join (number : Type) (l1 l2 : list (json number)) :
  (has_type InfinityPool.SwapResponse (JObj [("swaps", @JArr number [])]) = true /\
   has_type InfinityPool.SwapResponse (JObj [("swaps", JArr (l1 ++ l2))])
   = has_type InfinityPool.SwapResponse (JObj [("swaps", JArr l1)])
     && has_type InfinityPool.SwapResponse (JObj [("swaps", JArr l2)])) /\
  (has_type InfinityPool.PoolsResponse (JObj [("pools", @JArr number [])]) = true /\
   has_type InfinityPool.PoolsResponse (JObj [("pools", JArr (l1 ++ l2))])
   = has_type InfinityPool.PoolsResponse (JObj [("pools", JArr l1)])
     && has_type InfinityPool.PoolsResponse (JObj [("pools", JArr l2)])) /\
  (has_type InfinityPool.PoolQuoteResponse (JObj [("pool_quotes", @JArr number [])])
   = true /\
   has_type InfinityPool.PoolQuoteResponse
     (JObj [("pool_quotes", JArr (l1 ++ l2))])
   = has_type InfinityPool.PoolQuoteResponse (JObj [("pool_quotes", JArr l1)])
     && has_type InfinityPool.PoolQuoteResponse
          (JObj [("pool_quotes", JArr l2)])) /\
  (has_type InfinityPool.PoolsByIdResponse (JObj [("pools", @JArr number [])]) = true /\
   has_type InfinityPool.PoolsByIdResponse (JObj [("pools", JArr (l1 ++ l2))])
   = has_type InfinityPool.PoolsByIdResponse (JObj [("pools", JArr l1)])
     && has_type InfinityPool.PoolsByIdResponse (JObj [("pools", JArr l2)])) /\
  (has_type InfinityRouter.ArrayOfNftForTokensQuote (@JArr number []) = true /\
   has_type InfinityRouter.ArrayOfNftForTokensQuote (JArr (l1 ++ l2))
   = has_type InfinityRouter.ArrayOfNftForTokensQuote (JArr l1)
     && has_type InfinityRouter.ArrayOfNftForTokensQuote (JArr l2)) /\
  (has_type InfinityRouter.ArrayOfTokensForNftQuote (@JArr number []) = true /\
   has_type InfinityRouter.ArrayOfTokensForNftQuote (JArr (l1 ++ l2))
   = has_type InfinityRouter.ArrayOfTokensForNftQuote (JArr l1)
     && has_type InfinityRouter.ArrayOfTokensForNftQuote (JArr l2)).
Proof.
  split; [|split; [|split; [|split; [|split]]]]; (split; [reflexivity|]).
  - rewrite !(single_list_response InfinityPool.SwapResponse _
                InfinityPool.Swap _ eq_refl).
    apply forallb_app.
  - rewrite !(single_list_response InfinityPool.PoolsResponse _
                InfinityPool.Pool _ eq_refl).
    apply forallb_app.
  - rewrite !(single_list_response InfinityPool.PoolQuoteResponse _
                InfinityPool.PoolQuote _ eq_refl).
    apply forallb_app.
  - rewrite !(single_list_response InfinityPool.PoolsByIdResponse _
                (TTuple [TNumber; nullable InfinityPool.Pool]) _ eq_refl).
    apply forallb_app.
  - apply (forallb_app (has_type InfinityRouter.NftForTokensQuote) l1 l2).
  - apply (forallb_app (has_type InfinityRouter.TokensForNftQuote) l1 l2).
Qed.
